(** * SQLdump-to-FHIR: the preprocessor (src/preprocessor/preprocessor.py)

    A shallow embedding of [SQLPreprocessor]: the pandas cleaning step
    [clean_dataframe], the chunked extraction [extract_tables] over an
    sqlite connection, and [export_preprocessed_data] with its completion
    marker.  Python values are an inductive type, a DataFrame is a list of
    named, typed columns, exceptions are a [result], and the effects on the
    connection, the log and the file system are threaded through a small
    state-and-exception monad. *)

From Stdlib Require Import ZArith String Ascii List Lia.
From Stdlib Require Import Floats.SpecFloat.
From stdpp Require Import base option list gmap strings.

Open Scope string_scope.
Open Scope list_scope.
Open Scope nat_scope.

(** ** Python values *)

(** [pd.Timestamp], as far as [strftime('%Y-%m-%d')] looks at it. *)
Record Timestamp := mkTimestamp {
  ts_year : nat; ts_month : nat; ts_day : nat;
  ts_hour : nat; ts_minute : nat; ts_second : nat }.

(** The values a DataFrame cell, and later a record field, can hold.
    Floats are IEEE binary64 values ([spec_float], no NaN payload). *)
Inductive pyval :=
| PNone                         (* None *)
| PNA                           (* pd.NA *)
| PNaT                          (* pd.NaT *)
| PBool (b : bool)
| PInt (z : Z)
| PFloat (f : spec_float)
| PStr (s : string)
| PBytes (b : list Byte.byte)
| PTimestamp (t : Timestamp)
| POpaque (repr : string).      (* any other object: Timedelta, Decimal, ... *)

Inductive exn :=
| AttributeError (msg : string)
| KeyError (msg : string)
| TypeError (msg : string)
| OSError (msg : string)
| DatabaseError (msg : string).

Inductive result (A : Type) :=
| Ok (a : A)
| Raise (e : exn).
Arguments Ok {A} a.
Arguments Raise {A} e.

Definition rbind {A B} (r : result A) (k : A → result B) : result B :=
  match r with Ok a => k a | Raise e => Raise e end.

Definition is_ok {A} (r : result A) : bool :=
  match r with Ok _ => true | Raise _ => false end.

(** ** pandas: dtypes, Series, DataFrame *)

(** The dtypes of the columns considered: the numpy dtypes that the read
    from sqlite and the date handling involve, and three dtypes that the
    code has no case for. *)
Inductive dtype :=
| Int64 | Float64 | BoolDtype | ObjectDtype
| Datetime64                    (* datetime64[ns], timezone-naive *)
| Timedelta64                   (* timedelta64[ns] *)
| Categorical                   (* category, with strings as categories *)
| NullableFloat64.              (* the masked extension dtype 'Float64' *)

Record Series := mkSeries { s_dtype : dtype; s_values : list pyval }.

(** A frame: the length of its index and its columns in order. *)
Record DataFrame := mkFrame {
  df_len : nat;
  df_columns : list (string * Series) }.

Definition is_nan (f : spec_float) : bool :=
  match f with S754_nan => true | _ => false end.

Definition is_inf (f : spec_float) : bool :=
  match f with S754_infinity _ => true | _ => false end.

(** [pd.isnull] on one cell: None, pd.NA, pd.NaT and float NaN are missing;
    an infinity is not. *)
Definition isnull (v : pyval) : bool :=
  match v with
  | PNone | PNA | PNaT => true
  | PFloat f => is_nan f
  | _ => false
  end.

Definition notnull (v : pyval) : bool := negb (isnull v).

Definition float_zero : spec_float := S754_zero false.

(** Writing the scalar [0] into a column.  A categorical column refuses
    it: [0] is not one of its categories, and pandas raises a TypeError
    instead of changing the dtype. *)
Definition refuses_zero (d : dtype) : bool :=
  match d with Categorical => true | _ => false end.

(** In the other columns the write goes through: a float64 column and a
    nullable Float64 column store [0.0] and keep their dtype, an int64
    column keeps [0]; a bool, object, datetime64 or timedelta64 column
    cannot hold the integer and is upcast to object.  The other cells keep
    their values, and no dtype is inferred again from the result.  (On a
    categorical column these two functions are not reached.) *)
Definition zero_in (d : dtype) : pyval :=
  match d with
  | Float64 | NullableFloat64 => PFloat float_zero
  | _ => PInt 0
  end.

Definition dtype_holding_zero (d : dtype) : dtype :=
  match d with
  | Float64 => Float64
  | NullableFloat64 => NullableFloat64
  | Int64 => Int64
  | Categorical => Categorical
  | BoolDtype | ObjectDtype | Datetime64 | Timedelta64 => ObjectDtype
  end.

Definition putmask_zero (mask : pyval → bool) (s : Series) : Series :=
  if existsb mask (s_values s)
  then {| s_dtype := dtype_holding_zero (s_dtype s);
          s_values := (λ v, if mask v then zero_in (s_dtype s) else v)
                        <$> s_values s |}
  else s.

Definition map_columns (f : Series → Series) (df : DataFrame) : DataFrame :=
  {| df_len := df_len df;
     df_columns := (λ c, (fst c, f (snd c))) <$> df_columns df |}.

(** The exception of writing [0] over the masked cells of a frame: some
    column that refuses the zero has a masked cell. *)
Definition new_category_error : exn :=
  TypeError "Cannot setitem on a Categorical with a new category (0), set the categories first".

Definition setitem_zero_error (mask : pyval → bool) (df : DataFrame) : option exn :=
  if existsb (λ c, refuses_zero (s_dtype (snd c)) && existsb mask (s_values (snd c)))
             (df_columns df)
  then Some new_category_error
  else None.

Definition raise_if (e : option exn) : result unit :=
  match e with Some e => Raise e | None => Ok tt end.

(** [df.replace(to_replace, 0)]: pandas masks the cells equal to an element
    of [to_replace], and every missing cell as soon as one element of
    [to_replace] is itself a missing marker.  All elements of the list used
    here are missing markers, so no cell is matched by equality. *)
Definition to_replace : list pyval := [PNA; PNaT; PNone].

Definition mask_missing (targets : list pyval) (v : pyval) : bool :=
  existsb isnull targets && isnull v.

(** The frame [df.replace] returns, when it returns. *)
Definition df_replace (targets : list pyval) (df : DataFrame) : DataFrame :=
  map_columns (putmask_zero (mask_missing targets)) df.

(** [df.where(pd.notnull(df), 0)], when it returns. *)
Definition df_where_notnull (df : DataFrame) : DataFrame :=
  map_columns (putmask_zero (λ v, negb (notnull v))) df.

(** [df.select_dtypes(include=['datetime64']).columns] *)
Definition is_datetime64 (d : dtype) : bool :=
  match d with Datetime64 => true | _ => false end.

Definition select_datetime64 (df : DataFrame) : list string :=
  fst <$> filter (λ c, is_datetime64 (s_dtype (snd c)) = true) (df_columns df).

(** [df[col]] followed by [.dt]: with a repeated label [df[col]] is a frame,
    which has no [.dt]. *)
Definition getitem_dt (df : DataFrame) (col : string) : result Series :=
  match filter (λ c, fst c = col) (df_columns df) with
  | [] => Raise (KeyError col)
  | [c] =>
      if is_datetime64 (s_dtype (snd c)) then Ok (snd c)
      else Raise (AttributeError "Can only use .dt accessor with datetimelike values")
  | _ => Raise (AttributeError "'DataFrame' object has no attribute 'dt'")
  end.

Definition digit (n : nat) : ascii := ascii_of_nat (48 + n mod 10).

Definition pad2 (n : nat) : string :=
  String (digit (n / 10)) (String (digit n) "").

Definition pad4 (n : nat) : string :=
  String (digit (n / 1000)) (String (digit (n / 100)) (pad2 n)).

(** [Timestamp.strftime('%Y-%m-%d')]; a Timestamp's year has four digits. *)
Definition strftime_Ymd (t : Timestamp) : string :=
  pad4 (ts_year t) +:+ "-" +:+ pad2 (ts_month t) +:+ "-" +:+ pad2 (ts_day t).

(** [Series.dt.strftime('%Y-%m-%d')]: an object column of strings, NaN
    where the value is NaT. *)
Definition strftime_cell (v : pyval) : pyval :=
  match v with
  | PTimestamp t => PStr (strftime_Ymd t)
  | _ => PFloat S754_nan
  end.

Definition dt_strftime (s : Series) : Series :=
  {| s_dtype := ObjectDtype; s_values := strftime_cell <$> s_values s |}.

(** [df[col] = s] *)
Definition setitem (df : DataFrame) (col : string) (s : Series) : DataFrame :=
  if existsb (λ c, bool_decide (fst c = col)) (df_columns df)
  then {| df_len := df_len df;
          df_columns := (λ c, if decide (fst c = col) then (fst c, s) else c)
                          <$> df_columns df |}
  else {| df_len := df_len df; df_columns := df_columns df ++ [(col, s)] |}.

Fixpoint strftime_loop (cols : list string) (df : DataFrame) : result DataFrame :=
  match cols with
  | [] => Ok df
  | col :: rest =>
      rbind (getitem_dt df col) (λ s,
        strftime_loop rest (setitem df col (dt_strftime s)))
  end.

(** [SQLPreprocessor.clean_dataframe]: each of the two replacements raises
    when a categorical column has a cell to replace (which of the two lines
    pandas raises from makes no difference: nothing is caught, and no
    effect lies between them). *)
Definition clean_dataframe (df : DataFrame) : result DataFrame :=
  rbind (raise_if (setitem_zero_error (mask_missing to_replace) df)) (λ _,
  let df := df_replace to_replace df in
  rbind (raise_if (setitem_zero_error (λ v, negb (notnull v)) df)) (λ _,
  let df := df_where_notnull df in
  let date_columns := select_datetime64 df in
  strftime_loop date_columns df)).

(** [df.to_dict(orient='records')]: one dict per index position, the
    columns in order; a repeated label keeps its first position and its
    last value, as a Python dict does. *)
Abbreviation record := (list (string * pyval)).

Fixpoint dict_set {V} (k : string) (v : V) (d : list (string * V)) : list (string * V) :=
  match d with
  | [] => [(k, v)]
  | (k', v') :: d' => if decide (k' = k) then (k', v) :: d' else (k', v') :: dict_set k v d'
  end.

Definition dict_of {V} (items : list (string * V)) : list (string * V) :=
  fold_left (λ d kv, dict_set (fst kv) (snd kv) d) items [].

Definition cell_at (s : Series) (i : nat) : pyval :=
  default PNone (s_values s !! i).

Definition row_record (df : DataFrame) (i : nat) : record :=
  dict_of ((λ c, (fst c, cell_at (snd c) i)) <$> df_columns df).

Definition to_dict_records (df : DataFrame) : list record :=
  row_record df <$> seq 0 (df_len df).

(** ** The sqlite source *)

(** The five storage classes of an sqlite value, and the Python object the
    [sqlite3] module returns for each. *)
Inductive sqlval :=
| SNull
| SInteger (z : Z)
| SReal (f : spec_float)
| SText (s : string)
| SBlob (b : list Byte.byte).

Definition py_of_sql (v : sqlval) : pyval :=
  match v with
  | SNull => PNone
  | SInteger z => PInt z
  | SReal f => PFloat f
  | SText s => PStr s
  | SBlob b => PBytes b
  end.

(** What a cursor still has to deliver: rows, then the end of the result
    set or an error of the underlying read. *)
Inductive rowstream :=
| Eof
| Broken (e : exn)
| Row (r : list sqlval) (rest : rowstream).

Fixpoint stream_of (rows : list (list sqlval)) : rowstream :=
  match rows with
  | [] => Eof
  | r :: rows' => Row r (stream_of rows')
  end.

Fixpoint stream_length (cur : rowstream) : nat :=
  match cur with
  | Row _ rest => S (stream_length rest)
  | _ => 0
  end.

(** The next [n] rows of the cursor, or those that are left. *)
Fixpoint fetch_rows (n : nat) (cur : rowstream)
  : result (list (list pyval) * rowstream) :=
  match n with
  | 0 => Ok ([], cur)
  | S n' =>
      match cur with
      | Eof => Ok ([], Eof)
      | Broken e => Raise e
      | Row r rest =>
          rbind (fetch_rows n' rest) (λ dc,
            Ok ((py_of_sql <$> r) :: fst dc, snd dc))
      end
  end.

(** All the rows that are left. *)
Fixpoint fetch_all (cur : rowstream) : result (list (list pyval) * rowstream) :=
  match cur with
  | Eof => Ok ([], Eof)
  | Broken e => Raise e
  | Row r rest =>
      rbind (fetch_all rest) (λ dc, Ok ((py_of_sql <$> r) :: fst dc, snd dc))
  end.

(** [cursor.fetchmany(size)]: the [sqlite3] module appends rows until the
    number of rows appended equals [size] or the cursor is exhausted, so
    with size 0 it returns all the rows that are left. *)
Definition fetchmany (size : nat) (cur : rowstream)
  : result (list (list pyval) * rowstream) :=
  match size with
  | 0 => fetch_all cur
  | S _ => fetch_rows size cur
  end.

(** *** Building a frame from fetched tuples *)

Definition in_int64 (z : Z) : bool :=
  ((- 2 ^ 63 <=? z) && (z <? 2 ^ 63))%Z.

Definition float_of_Z (z : Z) : spec_float := binary_normalize 53 1024 z 0 false.

Definition is_none (v : pyval) : bool := match v with PNone => true | _ => false end.
Definition is_bool (v : pyval) : bool := match v with PBool _ => true | _ => false end.
Definition is_int (v : pyval) : bool := match v with PInt _ => true | _ => false end.
Definition is_float (v : pyval) : bool := match v with PFloat _ => true | _ => false end.

(** Values that keep a column at dtype object whatever else it holds
    (an integer outside int64 stays a Python object as well). *)
Definition is_object (v : pyval) : bool :=
  match v with
  | PNone | PBool _ | PFloat _ => false
  | PInt z => negb (in_int64 z)
  | _ => true
  end.

Definition to_float (v : pyval) : pyval :=
  match v with
  | PNone => PFloat S754_nan
  | PInt z => PFloat (float_of_Z z)
  | _ => v
  end.

(** [lib.maybe_convert_objects], by which [DataFrame.from_records] chooses
    the dtype of one column from the values of that column in the chunk:
    strings and bytes give object; integers give int64; a float, or None
    next to an integer, gives float64 with None as NaN and the integers
    converted; a column of None alone stays an object column of None. *)
Definition maybe_convert_objects (vals : list pyval) : Series :=
  if existsb is_object vals then mkSeries ObjectDtype vals
  else if existsb is_bool vals then
    if forallb is_bool vals then mkSeries BoolDtype vals
    else mkSeries ObjectDtype vals
  else if existsb is_float vals || (existsb is_none vals && existsb is_int vals)
    then mkSeries Float64 (to_float <$> vals)
  else if existsb is_int vals then mkSeries Int64 vals
  else mkSeries ObjectDtype vals.

Definition tuple_item (j : nat) (t : list pyval) : pyval :=
  default PNone (t !! j).

(** [DataFrame.from_records(data, columns=columns, coerce_float=True)] *)
Definition from_records (data : list (list pyval)) (columns : list string) : DataFrame :=
  {| df_len := length data;
     df_columns :=
       imap (λ j name, (name, maybe_convert_objects (tuple_item j <$> data)))
            columns |}.

(** The generator behind [pd.read_sql_query(..., chunksize=size)]: fetch,
    stop on an empty fetch (after one empty frame if nothing was read at
    all), otherwise yield the frame of the fetched tuples.  The fuel bounds
    the number of fetches. *)
Fixpoint query_iterator_from (fuel size : nat) (columns : list string)
    (cur : rowstream) (has_read_data : bool) : list (result DataFrame) :=
  match fuel with
  | 0 => []
  | S fuel' =>
      match fetchmany size cur with
      | Raise e => [Raise e]
      | Ok ([], _) =>
          if has_read_data then [] else [Ok (from_records [] columns)]
      | Ok (data, cur') =>
          Ok (from_records data columns)
            :: query_iterator_from fuel' size columns cur' true
      end
  end.

Definition query_iterator (size : nat) (columns : list string) (cur : rowstream)
  : list (result DataFrame) :=
  query_iterator_from (S (stream_length cur)) size columns cur false.

(** ** The world of one run *)

Inductive conn_state := NotConnected | Connected | Closed.

Inductive log_line :=
| LogProcessingTable (table : string)
| LogTotalRows (table : string) (total_rows : Z)
| LogProcessed (n : nat) (table : string)
| LogExported (n : nat) (output_file : string)
| LogInfo (msg : string)
| LogError (msg : string) (e : exn).

Inductive file_content :=
| JsonArray (data : list record)   (* a complete json.dump of the data *)
| Truncated                        (* opened for writing, dump not completed *)
| Text (s : string)
| Database.                        (* an sqlite database; the environment answers for it *)

Record world := mkWorld {
  w_conn : conn_state;
  w_log : list log_line;
  w_opened : list string;            (* the paths opened for writing, in order *)
  w_files : gmap string file_content }.

(** What the run cannot control: the answers of the database and the
    failures of the file system. *)
Record environment := mkEnv {
  connect_error : option exn;
  count_query : string → result Z;                       (* SELECT COUNT( * ) FROM table *)
  select_query : string → result (list string * rowstream); (* SELECT * FROM table *)
  makedirs_error : option exn;
  open_error : string → option exn;
  write_error : string → option exn }.

(** State and exceptions: an exception keeps the effects made so far. *)
Definition M (A : Type) : Type := world → result A * world.

Definition ret {A} (a : A) : M A := λ w, (Ok a, w).
Definition raise {A} (e : exn) : M A := λ w, (Raise e, w).
Definition bind {A B} (m : M A) (k : A → M B) : M B :=
  λ w, match m w with
       | (Ok a, w') => k a w'
       | (Raise e, w') => (Raise e, w')
       end.
Definition lift {A} (r : result A) : M A := λ w, (r, w).
Definition try_except {A} (m : M A) (h : exn → M A) : M A :=
  λ w, match m w with
       | (Ok a, w') => (Ok a, w')
       | (Raise e, w') => h e w'
       end.

Notation "'do' x <- m ; k" := (bind m (λ x, k))
  (at level 10, x name, m at level 100, k at level 200).
Notation "'do' ' pat <- m ; k" := (bind m (λ x, match x with pat => k end))
  (at level 10, pat pattern, m at level 100, k at level 200).
Notation "'exec' m ; k" := (bind m (λ _, k))
  (at level 10, m at level 100, k at level 200).

Definition logged (l : log_line) (w : world) : world :=
  {| w_conn := w_conn w; w_log := w_log w ++ [l];
     w_opened := w_opened w; w_files := w_files w |}.

Definition logger_info (l : log_line) : M unit := λ w, (Ok tt, logged l w).

Definition with_conn (c : conn_state) (w : world) : world :=
  {| w_conn := c; w_log := w_log w; w_opened := w_opened w; w_files := w_files w |}.

Definition set_conn (c : conn_state) : M unit := λ w, (Ok tt, with_conn c w).

Definition with_file (path : string) (c : file_content) (w : world) : world :=
  {| w_conn := w_conn w; w_log := w_log w; w_opened := w_opened w;
     w_files := <[path := c]> (w_files w) |}.

Definition set_file (path : string) (c : file_content) : M unit :=
  λ w, (Ok tt, with_file path c w).

Definition opened (path : string) (w : world) : world :=
  {| w_conn := w_conn w; w_log := w_log w; w_opened := w_opened w ++ [path];
     w_files := <[path := Truncated]> (w_files w) |}.

Definition fail_if (e : option exn) : M unit :=
  match e with Some e => raise e | None => ret tt end.

(** ** Extraction *)

(** The body of [for chunk in pd.read_sql_query(...)]: clean the chunk,
    extend the records, log the running count. *)
Fixpoint chunk_loop (table : string) (chunks : list (result DataFrame))
    (processed_records : list record) : M (list record) :=
  match chunks with
  | [] => ret processed_records
  | Raise e :: _ => raise e
  | Ok chunk :: rest =>
      do chunk <- lift (clean_dataframe chunk);
      let processed_records := processed_records ++ to_dict_records chunk in
      exec logger_info (LogProcessed (length processed_records) table);
      chunk_loop table rest processed_records
  end.

(** One turn of [for table in tables], up to the assignment to
    [processed_data[table]]. *)
Definition extract_table (env : environment) (chunk_size : nat) (table : string)
  : M (list record) :=
  exec logger_info (LogProcessingTable table);
  do total_rows <- lift (count_query env table);
  exec logger_info (LogTotalRows table total_rows);
  do ' (columns, cursor) <- lift (select_query env table);
  chunk_loop table (query_iterator chunk_size columns cursor) [].

Abbreviation dataset := (list (string * list record)).

Fixpoint tables_loop (env : environment) (chunk_size : nat) (tables : list string)
    (processed_data : dataset) : M dataset :=
  match tables with
  | [] => ret processed_data
  | table :: rest =>
      do processed_records <- extract_table env chunk_size table;
      tables_loop env chunk_size rest (dict_set table processed_records processed_data)
  end.

(** [self.sql_dump_path], as [main] constructs the preprocessor. *)
Definition sql_dump_path : string := "/app/input/task.sqlite".

(** [sqlite3.connect(self.sql_dump_path)] opens the database file, and
    creates it when it does not exist. *)
Definition database_opened (w : world) : world :=
  match w_files w !! sql_dump_path with
  | Some _ => w
  | None => with_file sql_dump_path Database w
  end.

Definition sqlite3_connect (env : environment) : M unit :=
  exec fail_if (connect_error env);
  λ w, (Ok tt, with_conn Connected (database_opened w)).

Definition extract_tables_with (env : environment) (chunk_size : nat)
    (tables : list string) : M dataset :=
  exec sqlite3_connect env;
  do processed_data <- tables_loop env chunk_size tables [];
  exec set_conn Closed;
  ret processed_data.

Definition tables : list string :=
  ["tb_emr_surgery_info"; "tb_encounter"; "tb_person_mtr"; "tb_mig_implant_description"].

Definition chunk_size : nat := Z.to_nat 100000.

(** [SQLPreprocessor.extract_tables] *)
Definition extract_tables (env : environment) : M dataset :=
  extract_tables_with env chunk_size tables.

(** ** Export *)

Definition output_dir : string := "intermediate".

Definition starts_with_slash (s : string) : bool :=
  match s with String "/" _ => true | _ => false end.

(** [os.path.join(a, b)] for a relative, non-empty [a] that does not end
    in a slash, which [output_dir] is. *)
Definition path_join (a b : string) : string :=
  if starts_with_slash b then b else a +:+ "/" +:+ b.

Definition output_file (table : string) : string :=
  path_join output_dir (table +:+ "_preprocessed.json").

Definition marker_file : string :=
  path_join output_dir "preprocessing_complete.txt".

Definition marker_text : string := "Preprocessing completed successfully".

(** What [json.dump] accepts as a dict value with the default encoder. *)
Definition json_serializable (v : pyval) : bool :=
  match v with
  | PNone | PBool _ | PInt _ | PFloat _ | PStr _ => true
  | _ => false
  end.

Definition json_dumpable (data : list record) : bool :=
  forallb (λ r : record, forallb (λ kv, json_serializable (snd kv)) r) data.

(** [open(path, 'w')]: the file exists and is empty from here on. *)
Definition open_w (env : environment) (path : string) : M unit :=
  exec fail_if (open_error env path);
  λ w, (Ok tt, opened path w).

(** [with open(output_file, 'w') as f: json.dump(data, f, indent=2)] *)
Definition write_json (env : environment) (path : string) (data : list record) : M unit :=
  exec open_w env path;
  if json_dumpable data then
    exec fail_if (write_error env path);
    set_file path (JsonArray data)
  else raise (TypeError "Object is not JSON serializable").

Fixpoint export_loop (env : environment) (items : dataset) : M unit :=
  match items with
  | [] => ret tt
  | (table, data) :: rest =>
      exec write_json env (output_file table) data;
      exec logger_info (LogExported (length data) (output_file table));
      export_loop env rest
  end.

Definition write_marker (env : environment) : M unit :=
  exec open_w env marker_file;
  exec fail_if (write_error env marker_file);
  set_file marker_file (Text marker_text).

(** [SQLPreprocessor.export_preprocessed_data] *)
Definition export_preprocessed_data (env : environment) (processed_data : dataset)
  : M bool :=
  exec fail_if (makedirs_error env);
  exec export_loop env processed_data;
  exec write_marker env;
  ret true.

(** [main] *)
Definition main (env : environment) : M unit :=
  exec logger_info (LogInfo "Starting preprocessing...");
  try_except
    (do processed_data <- extract_tables env;
     exec export_preprocessed_data env processed_data;
     logger_info (LogInfo "Preprocessing completed successfully"))
    (λ e, exec logger_info (LogError "Preprocessing failed" e); raise e).

(** ** Vocabulary of the properties *)

(** A Timestamp of pandas: nanoseconds in 64 bits, so years 1677 to 2262. *)
Definition valid_timestamp (t : Timestamp) : bool :=
  ((1677 <=? ts_year t) && (ts_year t <=? 2262)
   && (1 <=? ts_month t) && (ts_month t <=? 12)
   && (1 <=? ts_day t) && (ts_day t <=? 31)
   && (ts_hour t <? 24) && (ts_minute t <? 60) && (ts_second t <? 60))%nat.

(** The values a column of each dtype stores: a timedelta64 column holds
    Timedelta objects or NaT, a categorical column one of its categories (a
    string) or NaN, a nullable Float64 column a float other than NaN or
    pd.NA. *)
Definition cell_has_dtype (d : dtype) (v : pyval) : bool :=
  match d, v with
  | Int64, PInt z => in_int64 z
  | Float64, PFloat _ => true
  | BoolDtype, PBool _ => true
  | Datetime64, PTimestamp t => valid_timestamp t
  | Datetime64, PNaT => true
  | ObjectDtype, _ => true
  | Timedelta64, POpaque _ => true
  | Timedelta64, PNaT => true
  | Categorical, PStr _ => true
  | Categorical, PFloat f => is_nan f
  | NullableFloat64, PFloat f => negb (is_nan f)
  | NullableFloat64, PNA => true
  | _, _ => false
  end.

Definition well_typed_series (n : nat) (s : Series) : Prop :=
  length (s_values s) = n ∧ Forall (λ v, cell_has_dtype (s_dtype s) v = true) (s_values s).

(** A well-typed batch: distinct column labels, every column as long as the
    index, every cell of the type of its column. *)
Definition well_typed (df : DataFrame) : Prop :=
  NoDup (fst <$> df_columns df)
  ∧ Forall (λ c, well_typed_series (df_len df) (snd c)) (df_columns df).

(** Cell [i] of the [j]-th column, which is labelled [name]. *)
Definition cell_of (df : DataFrame) (i j : nat) (name : string) (v : pyval) : Prop :=
  ∃ s, df_columns df !! j = Some (name, s) ∧ s_values s !! i = Some v.

(** Field [j] of the [i]-th record. *)
Definition field_of (recs : list record) (i j : nat) (name : string) (v : pyval) : Prop :=
  ∃ r : record, recs !! i = Some r ∧ r !! j = Some (name, v).

(** Lines 37 and 38 together: the records of a cleaned chunk. *)
Definition clean_records (df : DataFrame) : result (list record) :=
  rbind (clean_dataframe df) (λ chunk, Ok (to_dict_records chunk)).

Definition is_infinite (v : pyval) : bool :=
  match v with PFloat f => is_inf f | _ => false end.

Definition is_digit (c : ascii) : bool :=
  ((48 <=? nat_of_ascii c) && (nat_of_ascii c <=? 57))%nat.

(** A string of the form YYYY-MM-DD. *)
Definition is_ymd (s : string) : bool :=
  match list_ascii_of_string s with
  | [y1; y2; y3; y4; h1; m1; m2; h2; d1; d2] =>
      forallb is_digit [y1; y2; y3; y4; m1; m2; d1; d2]
      && bool_decide (h1 = "-"%char) && bool_decide (h2 = "-"%char)
  | _ => false
  end.

(** A JSON scalar: a string, a boolean, an integer or a finite float. *)
Definition json_scalar (v : pyval) : bool :=
  match v with
  | PStr _ | PBool _ | PInt _ => true
  | PFloat f => negb (is_nan f) && negb (is_inf f)
  | _ => false
  end.

(** The column-wise view of [clean_dataframe]: both null replacements, then
    the date formatting if the column still has dtype datetime64. *)
Definition cleaned_column (s : Series) : Series :=
  let s := putmask_zero (mask_missing to_replace) s in
  let s := putmask_zero (λ v, negb (notnull v)) s in
  if is_datetime64 (s_dtype s) then dt_strftime s else s.

Definition has_null (s : Series) : bool := existsb isnull (s_values s).

(** No categorical column of the batch has a missing cell: wherever a zero
    has to be written, the column accepts it. *)
Definition accepts_zero (df : DataFrame) : bool :=
  forallb (λ c, negb (refuses_zero (s_dtype (snd c)) && has_null (snd c)))
          (df_columns df).

(** The dtypes the code has no case for. *)
Definition is_exotic (d : dtype) : bool :=
  match d with Timedelta64 | Categorical | NullableFloat64 => true | _ => false end.

(** What [cleaned_column] makes of one cell of the column [s]. *)
Definition clean_cell (s : Series) (v : pyval) : pyval :=
  if isnull v then zero_in (s_dtype s)
  else if is_datetime64 (s_dtype s) && negb (has_null s) then strftime_cell v
  else v.

(** ** Sample data *)

(** 2023-05-14 10:30:00 *)
Definition ts_2023_05_14 : Timestamp := mkTimestamp 2023 5 14 10 30 0.

Definition float_inf : spec_float := S754_infinity false.

(** 2.5 *)
Definition float_2_5 : spec_float := S754_finite false 5 (-1).

Definition df_sample : DataFrame :=
  {| df_len := 2;
     df_columns :=
       [ ("id", mkSeries Int64 [PInt 1; PInt 2]);
         ("score", mkSeries Float64 [PFloat S754_nan; PFloat float_2_5]);
         ("name", mkSeries ObjectDtype [PStr "a"; PNone]);
         ("seen", mkSeries Datetime64 [PTimestamp ts_2023_05_14; PTimestamp ts_2023_05_14]);
         ("wait", mkSeries Timedelta64
                    [POpaque "Timedelta('1 days')"; POpaque "Timedelta('2 days')"]);
         ("kind", mkSeries Categorical [PStr "x"; PStr "y"]);
         ("ratio", mkSeries NullableFloat64 [PNA; PFloat float_2_5]) ] |}.

Definition df_infinity : DataFrame :=
  {| df_len := 1; df_columns := [("x", mkSeries Float64 [PFloat float_inf])] |}.

Definition df_blob : DataFrame :=
  {| df_len := 1; df_columns := [("b", mkSeries ObjectDtype [PBytes [Byte.x00]])] |}.

Definition df_date_and_NaT : DataFrame :=
  {| df_len := 2;
     df_columns := [("d", mkSeries Datetime64 [PTimestamp ts_2023_05_14; PNaT])] |}.

(** A categorical column with a missing value. *)
Definition df_category_missing : DataFrame :=
  {| df_len := 2;
     df_columns := [("kind", mkSeries Categorical [PStr "x"; PFloat S754_nan])] |}.

(** ** Vocabulary of the extraction properties *)

(** The two records fields an sqlite cell can become: the cell read in an
    object (or int64) column, and the cell read in a float64 column; a
    missing value is replaced by the zero of the column in both. *)
Definition as_object_cell (v : sqlval) : pyval :=
  let p := py_of_sql v in
  if isnull p then zero_in ObjectDtype else p.

Definition as_float_cell (v : sqlval) : pyval :=
  let p := to_float (py_of_sql v) in
  if isnull p then zero_in Float64 else p.

Definition cell_image (v : sqlval) (o : pyval) : Prop :=
  o = as_object_cell v ∨ o = as_float_cell v.

(** A record that stands for a source row: the column labels in order, and
    under each label an image of the cell of the row. *)
Definition record_of_row (columns : list string) (row : list sqlval)
    (r : record) : Prop :=
  fst <$> r = columns ∧ Forall2 cell_image row (snd <$> r).

(** Column [j] of a batch of rows. *)
Definition sql_column (j : nat) (rows : list (list sqlval)) : list sqlval :=
  (λ row, default SNull (row !! j)) <$> rows.

(** Whether [maybe_convert_objects] makes a float64 column of the cells. *)
Definition reads_as_float (vals : list sqlval) : bool :=
  let pvals := py_of_sql <$> vals in
  negb (existsb is_object pvals)
  && (existsb is_float pvals || (existsb is_none pvals && existsb is_int pvals)).

Definition column_reader (rows : list (list sqlval)) (j : nat) : sqlval → pyval :=
  if reads_as_float (sql_column j rows) then as_float_cell else as_object_cell.

(** The records of one batch: every column is read by the reader that the
    cells of that column in this batch select. *)
Definition chunk_records (columns : list string) (rows : list (list sqlval))
  : list record :=
  (λ row, imap (λ j name, (name, column_reader rows j (default SNull (row !! j))))
               columns) <$> rows.

(** The records of rows read cell by cell as in an object column. *)
Definition canonical_records (columns : list string) (rows : list (list sqlval))
  : list record :=
  (λ row, imap (λ j name, (name, as_object_cell (default SNull (row !! j))))
               columns) <$> rows.

(** The batches a positive batch size cuts the rows into, in read order
    (at most [fuel] of them), and the records of a table read in these
    batches. *)
Fixpoint batches_from (fuel size : nat) (rows : list (list sqlval))
  : list (list (list sqlval)) :=
  match fuel, rows with
  | 0, _ | _, [] => []
  | S fuel', _ => take size rows :: batches_from fuel' size (drop size rows)
  end.

Definition batches (size : nat) (rows : list (list sqlval)) : list (list (list sqlval)) :=
  batches_from (length rows) size rows.

Definition table_records (size : nat) (columns : list string)
    (rows : list (list sqlval)) : list record :=
  concat (chunk_records columns <$> batches size rows).

Definition is_snull (v : sqlval) : bool := match v with SNull => true | _ => false end.
Definition is_sinteger (v : sqlval) : bool := match v with SInteger _ => true | _ => false end.
Definition is_sreal (v : sqlval) : bool := match v with SReal _ => true | _ => false end.
Definition is_snan (v : sqlval) : bool := match v with SReal f => is_nan f | _ => false end.

(** A column whose records do not depend on the batches: it holds values
    of at most one of the classes NULL, INTEGER and REAL (next to any TEXT
    and BLOB values), and no NaN (which sqlite stores as NULL anyway). *)
Definition column_stable (vals : list sqlval) : bool :=
  negb (existsb is_snull vals && existsb is_sinteger vals)
  && negb (existsb is_snull vals && existsb is_sreal vals)
  && negb (existsb is_sinteger vals && existsb is_sreal vals)
  && negb (existsb is_snan vals).

Definition table_stable (columns : list string) (rows : list (list sqlval)) : bool :=
  forallb (λ j, column_stable (sql_column j rows)) (seq 0 (length columns)).

(** The database answers both queries on [table], the second with the
    given columns and rows. *)
Definition table_served (env : environment) (table : string)
    (columns : list string) (rows : list (list sqlval)) : Prop :=
  is_ok (count_query env table) = true
  ∧ select_query env table = Ok (columns, stream_of rows)
  ∧ NoDup columns
  ∧ Forall (λ row : list sqlval, length row = length columns) rows.

(** The database serves every listed table, with the columns and rows that
    [schema] gives for it. *)
Definition tables_served (env : environment)
    (schema : string → list string * list (list sqlval)) (tables : list string) : Prop :=
  Forall (λ table, table_served env table (fst (schema table)) (snd (schema table)))
         tables.

(** No read of [table] raises: neither query, nor any fetch. *)
Definition table_reads (env : environment) (size : nat) (table : string) : bool :=
  match count_query env table, select_query env table with
  | Ok _, Ok (columns, cursor) => forallb is_ok (query_iterator size columns cursor)
  | _, _ => false
  end.

(** The same environment with another answer to the row-count query. *)
Definition with_count (env : environment) (answer : string → result Z) : environment :=
  {| connect_error := connect_error env;
     count_query := answer;
     select_query := select_query env;
     makedirs_error := makedirs_error env;
     open_error := open_error env;
     write_error := write_error env |}.

(** ** Vocabulary of the export properties *)

(** Writing the file of one table does not raise. *)
Definition table_writable (env : environment) (item : string * list record) : bool :=
  bool_decide (open_error env (output_file (fst item)) = None)
  && json_dumpable (snd item)
  && bool_decide (write_error env (output_file (fst item)) = None).

Definition marker_writable (env : environment) : bool :=
  bool_decide (open_error env marker_file = None)
  && bool_decide (write_error env marker_file = None).

(** ** Sample runs *)

(** Before the run: the database file is there, no output file is. *)
Definition world0 : world :=
  {| w_conn := NotConnected; w_log := []; w_opened := [];
     w_files := {[ sql_dump_path := Database ]} |}.


(** One table, an INTEGER column with 2^53 + 1 and a NULL, and a TEXT
    column. *)
Definition rows_int_null : list (list sqlval) :=
  [[SInteger 9007199254740993; SText "a"]; [SNull; SText "b"]].

Definition env_int_null : environment :=
  {| connect_error := None;
     count_query := λ _, Ok 2%Z;
     select_query := λ _, Ok (["c"; "t"], stream_of rows_int_null);
     makedirs_error := None;
     open_error := λ _, None;
     write_error := λ _, None |}.

(** A table without any NULL. *)
Definition rows_plain : list (list sqlval) :=
  [[SInteger 1; SText "a"]; [SInteger 2; SText "b"]; [SInteger 3; SText "c"]].

Definition env_plain : environment :=
  {| connect_error := None;
     count_query := λ _, Ok 3%Z;
     select_query := λ _, Ok (["c"; "t"], stream_of rows_plain);
     makedirs_error := None;
     open_error := λ _, None;
     write_error := λ _, None |}.

(** The row-count query fails, the read of the rows would not. *)
Definition env_count_fails : environment :=
  with_count env_plain (λ _, Raise (DatabaseError "database is locked")).

(** The second fetch of every table fails. *)
Definition env_broken : environment :=
  {| connect_error := None;
     count_query := λ _, Ok 3%Z;
     select_query := λ _, Ok (["c"], Row [SInteger 1] (Broken (DatabaseError "disk I/O error")));
     makedirs_error := None;
     open_error := λ _, None;
     write_error := λ _, None |}.

Definition data_plain : dataset :=
  [("tb_encounter", [[("c", PInt 1)]; [("c", PInt 2)]]); ("tb_person_mtr", [])].

(** ** Vocabulary of the further properties *)

Definition is_sblob (v : sqlval) : bool := match v with SBlob _ => true | _ => false end.

(** Some cell of the rows is a BLOB. *)
Definition has_blob (rows : list (list sqlval)) : bool :=
  existsb (existsb is_sblob) rows.

(** A file system on which nothing fails. *)
Definition fs_reliable (env : environment) : Prop :=
  makedirs_error env = None
  ∧ ∀ path, open_error env path = None ∧ write_error env path = None.

Definition digit_value (c : ascii) : nat := nat_of_ascii c - 48.

(** Reading a date string back: the year from the first four characters,
    the month from the sixth and seventh, the day from the last two. *)
Definition parse_ymd (s : string) : option (nat * nat * nat) :=
  match list_ascii_of_string s with
  | [y1; y2; y3; y4; h1; m1; m2; h2; d1; d2] =>
      if is_ymd s
      then Some (1000 * digit_value y1 + 100 * digit_value y2
                   + 10 * digit_value y3 + digit_value y4,
                 10 * digit_value m1 + digit_value m2,
                 10 * digit_value d1 + digit_value d2)
      else None
  | _ => None
  end.

(** 2023-05-14 23:59:59, the same day as [ts_2023_05_14]. *)
Definition ts_2023_05_14_late : Timestamp := mkTimestamp 2023 5 14 23 59 59.

(** Two columns under one label, the first of them a datetime64 column. *)
Definition df_repeated_label : DataFrame :=
  {| df_len := 1;
     df_columns :=
       [ ("d", mkSeries Datetime64 [PTimestamp ts_2023_05_14]);
         ("d", mkSeries Int64 [PInt 1]) ] |}.

(** A table file that cannot be opened. *)
Definition env_unwritable : environment :=
  {| connect_error := None;
     count_query := λ _, Ok 3%Z;
     select_query := λ _, Ok (["c"; "t"], stream_of rows_plain);
     makedirs_error := None;
     open_error := λ path,
       if decide (path = output_file "tb_person_mtr")
       then Some (OSError "Permission denied") else None;
     write_error := λ _, None |}.

(** * Properties *)

(** Well-typedness of a concrete frame: distinct labels by computation,
    lengths and cell types by the constructors. *)
Ltac solve_well_typed :=
  split; [apply (bool_decide_unpack _); by vm_compute | repeat constructor].

(** ** Lists and dictionaries *)

Lemma existsb_false_elem {A} (f : A → bool) (l : list A) (x : A) :
  existsb f l = false → x ∈ l → f x = false.
Proof.
  intros Hex Hin. apply list_elem_of_In in Hin.
  destruct (f x) eqn:Hfx; [|done].
  assert (existsb f l = true) by (apply existsb_exists; eauto). congruence.
Qed.

Lemma existsb_true_elem {A} (f : A → bool) (l : list A) :
  existsb f l = true → ∃ x, x ∈ l ∧ f x = true.
Proof.
  intros Hex. apply existsb_exists in Hex as (x & Hin & Hx).
  exists x. split; [by apply list_elem_of_In|done].
Qed.

Lemma dict_set_fresh {V} (k : string) (v : V) (d : list (string * V)) :
  k ∉ fst <$> d → dict_set k v d = d ++ [(k, v)].
Proof.
  induction d as [|[k' v'] d IH]; simpl; [done|].
  intros Hk. apply not_elem_of_cons in Hk as [Hne Hk].
  destruct (decide (k' = k)); [congruence|]. by rewrite IH.
Qed.

Lemma dict_of_from {V} (items acc : list (string * V)) :
  NoDup (fst <$> (acc ++ items)) →
  fold_left (λ d kv, dict_set (fst kv) (snd kv) d) items acc = acc ++ items.
Proof.
  revert acc. induction items as [|[k v] items IH]; intros acc Hnd; simpl.
  - by rewrite app_nil_r.
  - rewrite dict_set_fresh.
    + rewrite IH; rewrite <- app_assoc; done.
    + rewrite fmap_app in Hnd. apply NoDup_app in Hnd as (_ & Hdisj & _).
      intros Hin. apply (Hdisj k Hin). simpl. left.
Qed.

Lemma dict_of_NoDup {V} (items : list (string * V)) :
  NoDup (fst <$> items) → dict_of items = items.
Proof. intros Hnd. unfold dict_of. by rewrite dict_of_from. Qed.

Lemma filter_key_absent {V} (l : list (string * V)) (k : string) :
  k ∉ fst <$> l → filter (λ c, fst c = k) l = [].
Proof.
  induction l as [|[k' v'] l IH]; intros Hk; [done|].
  simpl in Hk. apply not_elem_of_cons in Hk as [Hne Hk].
  rewrite filter_cons_False by (simpl; congruence). auto.
Qed.

Lemma filter_key_unique {V} (l : list (string * V)) (k : string) (v : V) :
  NoDup (fst <$> l) → (k, v) ∈ l → filter (λ c, fst c = k) l = [(k, v)].
Proof.
  induction l as [|[k' v'] l IH]; intros Hnd Hin; [by inversion Hin|].
  simpl in Hnd. apply NoDup_cons in Hnd as [Hk' Hnd].
  apply elem_of_cons in Hin as [Heq|Hin].
  - inversion Heq; subst. rewrite filter_cons_True by done.
    by rewrite filter_key_absent.
  - rewrite filter_cons_False; [auto|]. simpl. intros ->.
    apply Hk'. apply list_elem_of_fmap. by exists (k, v).
Qed.

Lemma key_unique {V} (l : list (string * V)) (k : string) (v1 v2 : V) :
  NoDup (fst <$> l) → (k, v1) ∈ l → (k, v2) ∈ l → v1 = v2.
Proof.
  intros Hnd H1 H2.
  pose proof (filter_key_unique l k v1 Hnd H1) as E1.
  pose proof (filter_key_unique l k v2 Hnd H2) as E2.
  congruence.
Qed.

(** ** The Cleaner, column by column *)

Lemma mask_missing_to_replace v : mask_missing to_replace v = isnull v.
Proof. done. Qed.

Lemma zero_in_notnull d : isnull (zero_in d) = false.
Proof. by destruct d. Qed.

Lemma dtype_holding_zero_not_datetime d :
  is_datetime64 (dtype_holding_zero d) = false.
Proof. by destruct d. Qed.

Lemma existsb_fmap {A B} (f : A → B) (p : B → bool) (l : list A) :
  existsb p (f <$> l) = existsb (λ x, p (f x)) l.
Proof. induction l as [|x l IH]; csimpl; [done|]. by rewrite IH. Qed.

Lemma existsb_ext_false {A} (p : A → bool) (l : list A) :
  (∀ x, x ∈ l → p x = false) → existsb p l = false.
Proof.
  induction l as [|x l IH]; intros H; simpl; [done|].
  rewrite H by left. rewrite IH; [done|]. intros y Hy. apply H. by right.
Qed.

Lemma putmask_zero_no_match mask s :
  existsb mask (s_values s) = false → putmask_zero mask s = s.
Proof. intros H. unfold putmask_zero. by rewrite H. Qed.

Lemma replace_leaves_no_null s :
  existsb (λ v, negb (notnull v))
          (s_values (putmask_zero (mask_missing to_replace) s)) = false.
Proof.
  unfold putmask_zero.
  destruct (existsb (mask_missing to_replace) (s_values s)) eqn:Hnull; simpl.
  - rewrite existsb_fmap. apply existsb_ext_false. intros v _.
    rewrite mask_missing_to_replace. unfold notnull.
    destruct (isnull v) eqn:Hv; [by rewrite zero_in_notnull|by rewrite Hv].
  - apply existsb_ext_false. intros v Hv. unfold notnull.
    rewrite negb_involutive. by apply (existsb_false_elem _ _ _ Hnull).
Qed.

Lemma cleaned_column_eq (s : Series) :
  cleaned_column s =
    if has_null s
    then {| s_dtype := dtype_holding_zero (s_dtype s);
            s_values := (λ v, if isnull v then zero_in (s_dtype s) else v)
                          <$> s_values s |}
    else if is_datetime64 (s_dtype s) then dt_strftime s else s.
Proof.
  unfold cleaned_column.
  rewrite (putmask_zero_no_match _ _ (replace_leaves_no_null s)).
  unfold putmask_zero, has_null.
  change (existsb (mask_missing to_replace)) with (existsb isnull).
  destruct (existsb isnull (s_values s)); simpl; [|done].
  by rewrite dtype_holding_zero_not_datetime.
Qed.

Lemma cleaned_column_values (s : Series) :
  s_values (cleaned_column s) = clean_cell s <$> s_values s.
Proof.
  rewrite cleaned_column_eq. unfold clean_cell.
  destruct (has_null s) eqn:Hnull; simpl.
  - apply list_fmap_ext. intros i v _. by rewrite andb_false_r.
  - assert (∀ v, v ∈ s_values s → isnull v = false) as Hnn.
    { intros v Hv. by apply (existsb_false_elem _ _ _ Hnull). }
    destruct (is_datetime64 (s_dtype s)); simpl.
    + apply list_fmap_ext. intros i v Hv.
      by rewrite (Hnn v) by (by eapply list_elem_of_lookup_2).
    + rewrite <- (list_fmap_id (s_values s)) at 1.
      apply list_fmap_ext. intros i v Hv.
      by rewrite (Hnn v) by (by eapply list_elem_of_lookup_2).
Qed.

Lemma cleaned_column_length (s : Series) :
  length (s_values (cleaned_column s)) = length (s_values s).
Proof. by rewrite cleaned_column_values, length_fmap. Qed.

(** ** The Cleaner on a whole frame *)

Lemma frame_eta df : {| df_len := df_len df; df_columns := df_columns df |} = df.
Proof. by destruct df. Qed.

Lemma map_columns_labels f df :
  fst <$> df_columns (map_columns f df) = fst <$> df_columns df.
Proof.
  unfold map_columns; simpl. rewrite <- list_fmap_compose.
  by apply list_fmap_ext.
Qed.

Lemma map_columns_compose f g df :
  map_columns g (map_columns f df) = map_columns (λ s, g (f s)) df.
Proof.
  unfold map_columns; simpl. f_equal. rewrite <- list_fmap_compose.
  by apply list_fmap_ext.
Qed.

Lemma getitem_dt_unique df col s :
  NoDup (fst <$> df_columns df) → (col, s) ∈ df_columns df →
  is_datetime64 (s_dtype s) = true → getitem_dt df col = Ok s.
Proof.
  intros Hnd Hin Hd. unfold getitem_dt.
  rewrite (filter_key_unique _ _ _ Hnd Hin). simpl. by rewrite Hd.
Qed.

Lemma setitem_present df col s0 s :
  (col, s0) ∈ df_columns df →
  setitem df col s =
    {| df_len := df_len df;
       df_columns := (λ c, if decide (fst c = col) then (fst c, s) else c)
                       <$> df_columns df |}.
Proof.
  intros Hin. unfold setitem.
  assert (existsb (λ c, bool_decide (fst c = col)) (df_columns df) = true) as ->; [|done].
  apply existsb_exists. exists (col, s0). split; [by apply list_elem_of_In|].
  by apply bool_decide_eq_true.
Qed.

(** Formatting the listed columns one after the other formats exactly the
    columns whose label is listed. *)
Lemma strftime_loop_spec cols : ∀ df,
  NoDup (fst <$> df_columns df) → NoDup cols →
  (∀ col, col ∈ cols →
     ∃ s, (col, s) ∈ df_columns df ∧ is_datetime64 (s_dtype s) = true) →
  strftime_loop cols df =
    Ok {| df_len := df_len df;
          df_columns :=
            (λ c, if decide (fst c ∈ cols) then (fst c, dt_strftime (snd c)) else c)
              <$> df_columns df |}.
Proof.
  induction cols as [|col rest IH]; intros df Hnd Hcols Hdt; simpl.
  - f_equal. rewrite <- (frame_eta df) at 1. f_equal.
    rewrite <- (list_fmap_id (df_columns df)) at 1.
    apply list_fmap_ext. intros i c _.
    destruct (decide (fst c ∈ [])) as [Hin|]; [by inversion Hin|done].
  - apply NoDup_cons in Hcols as [Hnotin Hrest].
    destruct (Hdt col) as (s & Hs & Hsd); [left|].
    rewrite (getitem_dt_unique df col s Hnd Hs Hsd). simpl.
    rewrite (setitem_present df col s _ Hs).
    rewrite IH; simpl.
    + f_equal. f_equal. rewrite <- list_fmap_compose.
      apply list_fmap_ext. intros i [k sk] Hk. simpl.
      apply list_elem_of_lookup_2 in Hk.
      destruct (decide (k = col)) as [->|Hne]; simpl.
      * assert (sk = s) as -> by (by eapply key_unique).
        rewrite decide_False by done.
        rewrite decide_True by left. done.
      * destruct (decide (k ∈ rest)) as [Hin|Hout].
        -- rewrite decide_True by (by right). done.
        -- rewrite decide_False; [done|].
           intros [?|?]%elem_of_cons; done.
    + rewrite <- list_fmap_compose.
      erewrite list_fmap_ext; [exact Hnd|]. intros i c _. simpl.
      by destruct (decide (fst c = col)).
    + done.
    + intros c Hc. destruct (Hdt c) as (sc & Hsc & Hscd); [by right|].
      exists sc. split; [|done].
      apply list_elem_of_fmap. exists (c, sc). split; [|done]. simpl.
      rewrite decide_False; [done|]. intros ->. done.
Qed.

Lemma select_datetime64_elem df col :
  col ∈ select_datetime64 df ↔
  ∃ s, (col, s) ∈ df_columns df ∧ is_datetime64 (s_dtype s) = true.
Proof.
  unfold select_datetime64. rewrite list_elem_of_fmap. split.
  - intros ([k s] & -> & Hin). apply list_elem_of_filter in Hin as [Hd Hin].
    by exists s.
  - intros (s & Hin & Hd). exists (col, s). split; [done|].
    by apply list_elem_of_filter.
Qed.

Lemma NoDup_fst_filter {V} (P : string * V → Prop) `{∀ x, Decision (P x)}
    (l : list (string * V)) :
  NoDup (fst <$> l) → NoDup (fst <$> filter P l).
Proof.
  induction l as [|c l IH]; intros Hnd; [constructor|].
  simpl in Hnd. apply NoDup_cons in Hnd as [Hc Hnd].
  rewrite filter_cons. destruct (decide (P c)); [|by auto].
  simpl. apply NoDup_cons. split; [|by auto].
  intros (c' & Heq & Hin)%list_elem_of_fmap.
  apply list_elem_of_filter in Hin as [_ Hin].
  apply Hc. apply list_elem_of_fmap. by exists c'.
Qed.

Lemma forallb_negb {A} (p : A → bool) (l : list A) :
  forallb (λ x, negb (p x)) l = negb (existsb p l).
Proof. induction l as [|x l IH]; simpl; [done|]. by rewrite IH, negb_orb. Qed.

(** The first replacement raises exactly when a categorical column has a
    missing cell; the second one finds no cell to replace. *)
Lemma replace_error df :
  setitem_zero_error (mask_missing to_replace) df
  = if accepts_zero df then None else Some new_category_error.
Proof.
  unfold setitem_zero_error, accepts_zero. rewrite forallb_negb.
  change (existsb (mask_missing to_replace)) with (existsb isnull).
  by destruct (existsb _ (df_columns df)).
Qed.

Lemma where_error_after_replace df :
  setitem_zero_error (λ v, negb (notnull v)) (df_replace to_replace df) = None.
Proof.
  unfold setitem_zero_error. rewrite existsb_ext_false; [done|].
  intros c (c0 & -> & _)%list_elem_of_fmap. simpl.
  by rewrite replace_leaves_no_null, andb_false_r.
Qed.

Lemma clean_dataframe_accepted df :
  accepts_zero df = true →
  clean_dataframe df
  = strftime_loop (select_datetime64 (df_where_notnull (df_replace to_replace df)))
                  (df_where_notnull (df_replace to_replace df)).
Proof.
  intros Ha. unfold clean_dataframe.
  by rewrite replace_error, Ha, where_error_after_replace.
Qed.

(** A missing cell in a categorical column: the Cleaner raises. *)
Lemma clean_dataframe_refused df :
  accepts_zero df = false → clean_dataframe df = Raise new_category_error.
Proof. intros Ha. unfold clean_dataframe. by rewrite replace_error, Ha. Qed.

Lemma clean_dataframe_Ok_accepts df df' :
  clean_dataframe df = Ok df' → accepts_zero df = true.
Proof.
  intros Hc. destruct (accepts_zero df) eqn:Ha; [done|].
  by rewrite clean_dataframe_refused in Hc.
Qed.

(** With distinct labels and no missing cell in a categorical column,
    [clean_dataframe] returns, and what it returns is the frame of the
    cleaned columns. *)
Lemma clean_dataframe_columns df :
  NoDup (fst <$> df_columns df) → accepts_zero df = true →
  clean_dataframe df = Ok (map_columns cleaned_column df).
Proof.
  intros Hnd Ha. rewrite clean_dataframe_accepted by done.
  unfold df_replace, df_where_notnull.
  rewrite map_columns_compose.
  set (df2 := map_columns _ df).
  assert (NoDup (fst <$> df_columns df2)) as Hnd2
    by (unfold df2; by rewrite map_columns_labels).
  rewrite strftime_loop_spec; [| done | by apply NoDup_fst_filter |
    by intros col Hcol; apply select_datetime64_elem].
  f_equal. unfold df2, map_columns, cleaned_column; simpl. f_equal.
  rewrite <- list_fmap_compose. apply list_fmap_ext. intros i [k s] Hk. simpl.
  set (s2 := putmask_zero _ (putmask_zero _ s)).
  destruct (is_datetime64 (s_dtype s2)) eqn:Hd.
  - rewrite decide_True; [done|]. apply select_datetime64_elem.
    exists s2. split; [|done]. apply list_elem_of_fmap.
    exists (k, s). split; [done|]. by eapply list_elem_of_lookup_2.
  - rewrite decide_False; [done|].
    intros (s' & Hin & Hd')%select_datetime64_elem.
    assert (s' = s2) as ->; [|congruence].
    eapply key_unique; [exact Hnd2|exact Hin|].
    apply list_elem_of_fmap. exists (k, s). split; [done|].
    by eapply list_elem_of_lookup_2.
Qed.

(** ** Records of a frame *)

Lemma to_dict_records_length df : length (to_dict_records df) = df_len df.
Proof. unfold to_dict_records. by rewrite length_fmap, length_seq. Qed.

Lemma to_dict_records_lookup df i :
  NoDup (fst <$> df_columns df) → i < df_len df →
  to_dict_records df !! i
    = Some ((λ c, (fst c, cell_at (snd c) i)) <$> df_columns df).
Proof.
  intros Hnd Hi. unfold to_dict_records.
  rewrite list_lookup_fmap, lookup_seq_lt by done. simpl.
  unfold row_record. rewrite dict_of_NoDup; [done|].
  rewrite <- list_fmap_compose. by erewrite list_fmap_ext.
Qed.

Lemma well_typed_cell_length df j name s :
  well_typed df → df_columns df !! j = Some (name, s) →
  length (s_values s) = df_len df.
Proof.
  intros [_ Hcols] Hj. rewrite Forall_forall in Hcols.
  by destruct (Hcols (name, s)) as [Hlen _]; [by eapply list_elem_of_lookup_2|].
Qed.

Lemma well_typed_cell df i j name s v :
  well_typed df → df_columns df !! j = Some (name, s) → s_values s !! i = Some v →
  cell_has_dtype (s_dtype s) v = true.
Proof.
  intros [_ Hcols] Hj Hi. rewrite Forall_forall in Hcols.
  destruct (Hcols (name, s)) as [_ Hty]; [by eapply list_elem_of_lookup_2|].
  rewrite Forall_forall in Hty. apply Hty. by eapply list_elem_of_lookup_2.
Qed.

Lemma clean_records_Ok df recs :
  clean_records df = Ok recs →
  ∃ df', clean_dataframe df = Ok df' ∧ to_dict_records df' = recs.
Proof.
  unfold clean_records. destruct (clean_dataframe df) as [df'|]; [|done].
  simpl. intros [= <-]. by exists df'.
Qed.

Lemma clean_records_refused df :
  accepts_zero df = false → clean_records df = Raise new_category_error.
Proof. intros Ha. unfold clean_records. by rewrite clean_dataframe_refused. Qed.

Lemma clean_records_accepts df recs :
  clean_records df = Ok recs → accepts_zero df = true.
Proof.
  intros (df' & Hc & _)%clean_records_Ok. by eapply clean_dataframe_Ok_accepts.
Qed.

(** The records of a cleaned batch, field by field. *)
Lemma clean_records_fields df :
  well_typed df → accepts_zero df = true →
  ∃ recs, clean_records df = Ok recs
    ∧ length recs = df_len df
    ∧ ∀ i j name v',
        field_of recs i j name v' ↔
        ∃ s v, df_columns df !! j = Some (name, s) ∧ s_values s !! i = Some v
               ∧ v' = clean_cell s v.
Proof.
  intros Hwt Ha. pose proof Hwt as [Hnd _].
  unfold clean_records. rewrite clean_dataframe_columns by done. simpl.
  eexists. split; [done|]. split; [by rewrite to_dict_records_length|].
  assert (NoDup (fst <$> df_columns (map_columns cleaned_column df))) as Hnd'
    by (by rewrite map_columns_labels).
  intros i j name v'. unfold field_of. split.
  - intros (r & Hr & Hf).
    assert (i < df_len df) as Hi.
    { apply lookup_lt_Some in Hr. by rewrite to_dict_records_length in Hr. }
    rewrite to_dict_records_lookup in Hr by done. injection Hr as <-.
    unfold map_columns in Hf; cbn [df_columns] in Hf.
    rewrite !list_lookup_fmap in Hf.
    destruct (df_columns df !! j) as [[k s]|] eqn:Hj; [|done].
    simpl in Hf. injection Hf as <- <-.
    pose proof (well_typed_cell_length _ _ _ _ Hwt Hj) as Hlen.
    destruct (lookup_lt_is_Some_2 (s_values s) i) as [v Hv]; [lia|].
    exists s, v. split_and!; [done..|].
    unfold cell_at. by rewrite cleaned_column_values, list_lookup_fmap, Hv.
  - intros (s & v & Hj & Hv & ->).
    pose proof (well_typed_cell_length _ _ _ _ Hwt Hj) as Hlen.
    assert (i < df_len df) as Hi by (apply lookup_lt_Some in Hv; lia).
    eexists. split; [by apply to_dict_records_lookup|].
    unfold map_columns; cbn [df_columns]. rewrite !list_lookup_fmap, Hj. simpl.
    unfold cell_at. by rewrite cleaned_column_values, list_lookup_fmap, Hv.
Qed.

Lemma clean_records_labels df recs i r :
  well_typed df → clean_records df = Ok recs → recs !! i = Some r →
  fst <$> r = fst <$> df_columns df.
Proof.
  intros Hwt Hc Hr. pose proof Hwt as [Hnd _].
  pose proof (clean_records_accepts _ _ Hc) as Ha.
  unfold clean_records in Hc. rewrite clean_dataframe_columns in Hc by done.
  simpl in Hc. injection Hc as <-.
  assert (i < df_len df) as Hi.
  { apply lookup_lt_Some in Hr. by rewrite to_dict_records_length in Hr. }
  rewrite to_dict_records_lookup in Hr
    by (by rewrite ?map_columns_labels). injection Hr as <-.
  rewrite <- list_fmap_compose. by rewrite <- (map_columns_labels cleaned_column df).
Qed.

(** ** Date strings *)

Lemma is_digit_digit n : is_digit (digit n) = true.
Proof.
  unfold is_digit, digit.
  pose proof (Nat.mod_upper_bound n 10 ltac:(lia)) as Hlt.
  rewrite nat_ascii_embedding by lia.
  apply andb_true_iff. split; apply Nat.leb_le; lia.
Qed.

Lemma strftime_Ymd_chars t :
  list_ascii_of_string (strftime_Ymd t) =
    [ digit (ts_year t / 1000); digit (ts_year t / 100); digit (ts_year t / 10);
      digit (ts_year t); "-"%char;
      digit (ts_month t / 10); digit (ts_month t); "-"%char;
      digit (ts_day t / 10); digit (ts_day t) ].
Proof. reflexivity. Qed.

Lemma strftime_Ymd_is_ymd t : is_ymd (strftime_Ymd t) = true.
Proof.
  unfold is_ymd. rewrite strftime_Ymd_chars.
  cbn [forallb]. rewrite !is_digit_digit. reflexivity.
Qed.

(** ** Sample frames are well typed *)

Lemma well_typed_df_sample : well_typed df_sample.
Proof. solve_well_typed. Qed.

Lemma well_typed_df_infinity : well_typed df_infinity.
Proof. solve_well_typed. Qed.

Lemma well_typed_df_blob : well_typed df_blob.
Proof. solve_well_typed. Qed.

Lemma well_typed_df_date_and_NaT : well_typed df_date_and_NaT.
Proof. solve_well_typed. Qed.

Lemma well_typed_df_category_missing : well_typed df_category_missing.
Proof. solve_well_typed. Qed.

(** ** The Cleaner: missing values *)

Lemma clean_cell_notnull s v :
  cell_has_dtype (s_dtype s) v = true → isnull (clean_cell s v) = false.
Proof.
  intros Hty. unfold clean_cell.
  destruct (isnull v) eqn:Hv; [apply zero_in_notnull|].
  destruct (is_datetime64 (s_dtype s) && negb (has_null s)) eqn:Hd; [|done].
  apply andb_true_iff in Hd as [Hd _].
  destruct (s_dtype s); try done. by destruct v.
Qed.

(** C2, the claim as stated fails: an infinite cell of a float64 column is
    still infinite in the output record. *)
Lemma clean_keeps_infinity :
  ¬ (∀ df recs, well_typed df → clean_records df = Ok recs →
       ∀ i j name v, field_of recs i j name v →
         isnull v = false ∧ is_infinite v = false).
Proof.
  intros H.
  destruct (H df_infinity [[("x", PFloat float_inf)]] well_typed_df_infinity
              eq_refl 0 0 "x" (PFloat float_inf)) as [_ Hinf].
  - by eexists.
  - done.
Qed.

(** C2, amended: on a well-typed batch without a missing value in a
    categorical column the Cleaner returns, and no record field is None,
    pd.NA, pd.NaT or NaN; every such source cell has become zero: the float
    [0.0] in a float64 or nullable Float64 column, the integer [0] in a
    column of any other dtype; an infinite cell is passed through as it is.
    With a missing value in a categorical column the Cleaner raises a
    TypeError and replaces nothing. *)
Theorem clean_replaces_missing_not_infinity df :
  well_typed df →
  (accepts_zero df = true →
   ∃ recs, clean_records df = Ok recs
     ∧ (∀ i j name v', field_of recs i j name v' → isnull v' = false)
     ∧ (∀ i j name s v,
          df_columns df !! j = Some (name, s) → s_values s !! i = Some v →
          isnull v = true →
          (s_dtype s = Float64 ∨ s_dtype s = NullableFloat64 →
             field_of recs i j name (PFloat float_zero))
          ∧ (s_dtype s ≠ Float64 → s_dtype s ≠ NullableFloat64 →
             field_of recs i j name (PInt 0)))
     ∧ (∀ i j name s v,
          df_columns df !! j = Some (name, s) → s_values s !! i = Some v →
          is_infinite v = true → field_of recs i j name v))
  ∧ (accepts_zero df = false → ∃ msg, clean_records df = Raise (TypeError msg)).
Proof.
  intros Hwt. split; [|intros Ha; eexists; by apply clean_records_refused].
  intros Ha. destruct (clean_records_fields df Hwt Ha) as (recs & Hrecs & _ & Hf).
  exists recs. split; [done|]. split_and!.
  - intros i j name v' (s & v & Hj & Hi & ->)%Hf.
    apply clean_cell_notnull. by eapply well_typed_cell.
  - intros i j name s v Hj Hi Hnull.
    assert (field_of recs i j name (zero_in (s_dtype s))) as Hz.
    { apply Hf. exists s, v. split_and!; [done..|].
      unfold clean_cell. by rewrite Hnull. }
    split.
    + by intros [Hd|Hd]; rewrite Hd in Hz.
    + intros Hd1 Hd2. by destruct (s_dtype s).
  - intros i j name s v Hj Hi Hinf.
    apply Hf. exists s, v. split_and!; [done..|].
    pose proof (well_typed_cell _ _ _ _ _ _ Hwt Hj Hi) as Hty.
    destruct v as [| | | | |f| | | |]; try done. destruct f; try done.
    unfold clean_cell. simpl. by destruct (s_dtype s).
Qed.

Lemma clean_replaces_missing_not_infinity_witness :
  well_typed df_sample ∧ accepts_zero df_sample = true ∧
  ∃ recs, clean_records df_sample = Ok recs
    ∧ (∀ i j name v', field_of recs i j name v' → isnull v' = false)
    ∧ (∀ i j name s v,
         df_columns df_sample !! j = Some (name, s) → s_values s !! i = Some v →
         isnull v = true →
         (s_dtype s = Float64 ∨ s_dtype s = NullableFloat64 →
            field_of recs i j name (PFloat float_zero))
         ∧ (s_dtype s ≠ Float64 → s_dtype s ≠ NullableFloat64 →
            field_of recs i j name (PInt 0)))
    ∧ (∀ i j name s v,
         df_columns df_sample !! j = Some (name, s) → s_values s !! i = Some v →
         is_infinite v = true → field_of recs i j name v).
Proof.
  split; [exact well_typed_df_sample|]. split; [reflexivity|].
  apply (clean_replaces_missing_not_infinity df_sample well_typed_df_sample).
  reflexivity.
Defined.

(** ** The Cleaner: dates *)

(** C3, at a datetime64 column holding a date and a NaT: writing [0] over
    the NaT has turned the column into an object column, so it is not among
    the datetime64 columns any more and the date stays a Timestamp, where
    the claim has the string 2023-05-14. *)
Theorem clean_leaves_timestamp_next_to_NaT :
  well_typed df_date_and_NaT
  ∧ clean_records df_date_and_NaT
      = Ok [[("d", PTimestamp ts_2023_05_14)]; [("d", PInt 0)]]
  ∧ strftime_Ymd ts_2023_05_14 = "2023-05-14"
  ∧ json_dumpable [[("d", PTimestamp ts_2023_05_14)]; [("d", PInt 0)]] = false.
Proof. split; [exact well_typed_df_date_and_NaT|]. by vm_compute. Qed.

(** In a datetime64 column without a missing value every date becomes its
    YYYY-MM-DD string. *)
Lemma clean_formats_dates df recs i j name s t :
  well_typed df → clean_records df = Ok recs →
  df_columns df !! j = Some (name, s) → s_values s !! i = Some (PTimestamp t) →
  s_dtype s = Datetime64 → has_null s = false →
  field_of recs i j name (PStr (strftime_Ymd t)) ∧ is_ymd (strftime_Ymd t) = true.
Proof.
  intros Hwt Hrecs Hj Hi Hd Hnn.
  destruct (clean_records_fields df Hwt (clean_records_accepts _ _ Hrecs))
    as (recs' & Hrecs' & _ & Hf).
  assert (recs' = recs) as -> by congruence.
  split; [|apply strftime_Ymd_is_ymd].
  apply Hf. exists s, (PTimestamp t). split_and!; [done..|].
  unfold clean_cell. by rewrite Hd, Hnn.
Qed.

(** ** The Cleaner: what reaches serialization *)

(** C7, the claim as stated fails: the bytes of a BLOB cell are passed
    through, and [json.dump] does not accept them. *)
Lemma clean_passes_bytes :
  ¬ (∀ df recs, well_typed df → clean_records df = Ok recs →
       ∀ i j name v, field_of recs i j name v → json_serializable v = true).
Proof.
  intros H.
  pose proof (H df_blob [[("b", PBytes [Byte.x00])]] well_typed_df_blob
                eq_refl 0 0 "b" (PBytes [Byte.x00])) as Hb.
  assert (json_serializable (PBytes [Byte.x00]) = true); [|done].
  apply Hb. by eexists.
Qed.

Lemma clean_cell_json_scalar s v :
  json_scalar v = true ∨ isnull v = true →
  cell_has_dtype (s_dtype s) v = true →
  json_scalar (clean_cell s v) = true.
Proof.
  intros Hv Hty. unfold clean_cell.
  destruct (isnull v) eqn:Hnull; [by destruct (s_dtype s)|].
  destruct Hv as [Hv|]; [|done].
  destruct (is_datetime64 (s_dtype s) && negb (has_null s)) eqn:Hd; [|done].
  apply andb_true_iff in Hd as [Hd _].
  destruct (s_dtype s); try done. by destruct v.
Qed.

(** C7, amended: on a well-typed batch without a missing value in a
    categorical column the Cleaner returns a batch with the row count and
    the column labels of the input; a cell that was a string, a boolean, an
    integer, a finite float or a missing value is a string, a boolean, an
    integer or a finite float afterwards, and so is a date of a datetime64
    column without missing values, as its YYYY-MM-DD string.  Cells of
    other types (bytes, infinities, Timedelta objects) are passed through.
    With a missing value in a categorical column the Cleaner raises a
    TypeError. *)
Theorem clean_output_shape_and_scalars df :
  well_typed df →
  (accepts_zero df = true →
   ∃ recs, clean_records df = Ok recs
     ∧ length recs = df_len df
     ∧ (∀ i r, recs !! i = Some r → fst <$> r = fst <$> df_columns df)
     ∧ (∀ i j name s v,
          df_columns df !! j = Some (name, s) → s_values s !! i = Some v →
          json_scalar v = true ∨ isnull v = true →
          ∃ v', field_of recs i j name v' ∧ json_scalar v' = true)
     ∧ (∀ i j name s t,
          df_columns df !! j = Some (name, s) → s_values s !! i = Some (PTimestamp t) →
          s_dtype s = Datetime64 → has_null s = false →
          ∃ v', field_of recs i j name v' ∧ json_scalar v' = true))
  ∧ (accepts_zero df = false → ∃ msg, clean_records df = Raise (TypeError msg)).
Proof.
  intros Hwt. split; [|intros Ha; eexists; by apply clean_records_refused].
  intros Ha. destruct (clean_records_fields df Hwt Ha) as (recs & Hrecs & Hlen & Hf).
  exists recs. split_and!; [done..| | |].
  - intros i r Hr. by eapply clean_records_labels.
  - intros i j name s v Hj Hi Hv. exists (clean_cell s v). split.
    + apply Hf. by exists s, v.
    + apply clean_cell_json_scalar; [done|]. by eapply well_typed_cell.
  - intros i j name s t Hj Hi Hd Hnn. exists (PStr (strftime_Ymd t)).
    split; [|done]. by eapply clean_formats_dates.
Qed.

Lemma clean_output_shape_and_scalars_witness :
  well_typed df_sample ∧ accepts_zero df_sample = true ∧
  ∃ recs, clean_records df_sample = Ok recs
    ∧ length recs = df_len df_sample
    ∧ (∀ i r, recs !! i = Some r → fst <$> r = fst <$> df_columns df_sample)
    ∧ (∀ i j name s v,
         df_columns df_sample !! j = Some (name, s) → s_values s !! i = Some v →
         json_scalar v = true ∨ isnull v = true →
         ∃ v', field_of recs i j name v' ∧ json_scalar v' = true)
    ∧ (∀ i j name s t,
         df_columns df_sample !! j = Some (name, s) → s_values s !! i = Some (PTimestamp t) →
         s_dtype s = Datetime64 → has_null s = false →
         ∃ v', field_of recs i j name v' ∧ json_scalar v' = true).
Proof.
  split; [exact well_typed_df_sample|]. split; [reflexivity|].
  apply (clean_output_shape_and_scalars df_sample well_typed_df_sample).
  reflexivity.
Defined.

(** ** The Cleaner: totality and the frame *)

(** C8, the claim as stated fails: the Cleaner is not total over the
    well-typed batches.  On a categorical column with a missing value the
    write of [0] raises a TypeError, [0] not being one of the categories. *)
Lemma clean_raises_on_missing_category :
  ¬ (∀ df, well_typed df → ∃ df', clean_dataframe df = Ok df').
Proof.
  intros H. destruct (H df_category_missing well_typed_df_category_missing) as [df' Hc].
  by vm_compute in Hc.
Qed.

(** C8, amended: on a well-typed batch the Cleaner returns unless a
    categorical column holds a missing value, and then it raises a
    TypeError.  When it returns, a column of a dtype it has no case for
    (timedelta64, categorical, nullable Float64) keeps every cell that is
    not missing, and is returned as it is, dtype included, when it has no
    missing cell. *)
Theorem clean_total_unless_category_missing df :
  well_typed df →
  (accepts_zero df = true →
   ∃ df', clean_dataframe df = Ok df'
     ∧ ∀ j name s,
         df_columns df !! j = Some (name, s) → is_exotic (s_dtype s) = true →
         (has_null s = false → df_columns df' !! j = Some (name, s))
         ∧ (∀ i v, s_values s !! i = Some v → isnull v = false →
              cell_of df' i j name v))
  ∧ (accepts_zero df = false → ∃ msg, clean_dataframe df = Raise (TypeError msg)).
Proof.
  intros [Hnd _]. split; [|intros Ha; eexists; by apply clean_dataframe_refused].
  intros Ha. exists (map_columns cleaned_column df).
  split; [by apply clean_dataframe_columns|].
  intros j name s Hj Hd.
  assert (is_datetime64 (s_dtype s) = false) as Hdt by (by destruct (s_dtype s)).
  split.
  - intros Hnn. unfold map_columns; simpl. rewrite list_lookup_fmap, Hj. simpl.
    by rewrite cleaned_column_eq, Hnn, Hdt.
  - intros i v Hi Hv. exists (cleaned_column s). split.
    + unfold map_columns; simpl. by rewrite list_lookup_fmap, Hj.
    + rewrite cleaned_column_values, list_lookup_fmap, Hi. simpl.
      unfold clean_cell. by rewrite Hv, Hdt.
Qed.

Lemma clean_total_unless_category_missing_witness :
  well_typed df_sample ∧ accepts_zero df_sample = true ∧
  ∃ df', clean_dataframe df_sample = Ok df'
    ∧ ∀ j name s,
        df_columns df_sample !! j = Some (name, s) → is_exotic (s_dtype s) = true →
        (has_null s = false → df_columns df' !! j = Some (name, s))
        ∧ (∀ i v, s_values s !! i = Some v → isnull v = false →
             cell_of df' i j name v).
Proof.
  split; [exact well_typed_df_sample|]. split; [reflexivity|].
  apply (clean_total_unless_category_missing df_sample well_typed_df_sample).
  reflexivity.
Defined.

(** C9: whenever the Cleaner returns the records of a well-typed batch, a
    cell that is not missing, in a column that is not of dtype datetime64,
    is in the output record as the same Python value.  (The Cleaner returns
    unless a categorical column holds a missing value.) *)
Theorem clean_keeps_other_cells df :
  well_typed df →
  is_ok (clean_records df) = accepts_zero df
  ∧ ∀ recs, clean_records df = Ok recs →
      ∀ i j name s v,
        df_columns df !! j = Some (name, s) → s_values s !! i = Some v →
        isnull v = false → is_datetime64 (s_dtype s) = false →
        field_of recs i j name v.
Proof.
  intros Hwt. split.
  - destruct (accepts_zero df) eqn:Ha.
    + by destruct (clean_records_fields df Hwt Ha) as (recs & -> & _).
    + by rewrite clean_records_refused.
  - intros recs Hrecs i j name s v Hj Hi Hv Hd.
    destruct (clean_records_fields df Hwt (clean_records_accepts _ _ Hrecs))
      as (recs' & Hrecs' & _ & Hf).
    assert (recs' = recs) as -> by congruence.
    apply Hf. exists s, v. split_and!; [done..|].
    unfold clean_cell. by rewrite Hv, Hd.
Qed.

Lemma clean_keeps_other_cells_witness :
  well_typed df_sample ∧
  is_ok (clean_records df_sample) = accepts_zero df_sample
  ∧ ∀ recs, clean_records df_sample = Ok recs →
      ∀ i j name s v,
        df_columns df_sample !! j = Some (name, s) → s_values s !! i = Some v →
        isnull v = false → is_datetime64 (s_dtype s) = false →
        field_of recs i j name v.
Proof.
  split; [exact well_typed_df_sample|].
  apply (clean_keeps_other_cells df_sample). exact well_typed_df_sample.
Defined.

(** ** From sqlite cells to record fields *)

Lemma clean_cell_plain s p :
  is_datetime64 (s_dtype s) = false →
  clean_cell s p = if isnull p then zero_in (s_dtype s) else p.
Proof. intros Hd. unfold clean_cell. by rewrite Hd. Qed.

Lemma maybe_convert_objects_not_datetime vals :
  is_datetime64 (s_dtype (maybe_convert_objects vals)) = false.
Proof.
  unfold maybe_convert_objects.
  repeat match goal with |- context [if ?b then _ else _] => destruct b end; done.
Qed.

Lemma maybe_convert_objects_accepts vals :
  refuses_zero (s_dtype (maybe_convert_objects vals)) = false.
Proof.
  unfold maybe_convert_objects.
  repeat match goal with |- context [if ?b then _ else _] => destruct b end; done.
Qed.

(** No chunk read from sqlite has a categorical column. *)
Lemma from_records_accepts data columns :
  accepts_zero (from_records data columns) = true.
Proof.
  unfold accepts_zero. apply forallb_forall. intros c Hc%list_elem_of_In.
  unfold from_records in Hc; simpl in Hc.
  apply list_elem_of_lookup_1 in Hc as (j & Hj).
  rewrite list_lookup_imap in Hj.
  destruct (columns !! j); [|done]. simpl in Hj. injection Hj as <-. simpl.
  by rewrite maybe_convert_objects_accepts.
Qed.

Lemma py_of_sql_not_bool vals : existsb is_bool (py_of_sql <$> vals) = false.
Proof.
  rewrite existsb_fmap. apply existsb_ext_false. by intros [] _.
Qed.

(** The cells of a column of one batch, after inference of the dtype and
    cleaning. *)
Lemma column_fields (vals : list sqlval) :
  s_values (cleaned_column (maybe_convert_objects (py_of_sql <$> vals)))
  = (if reads_as_float vals then as_float_cell else as_object_cell) <$> vals.
Proof.
  rewrite cleaned_column_values.
  pose proof (maybe_convert_objects_not_datetime (py_of_sql <$> vals)) as Hd.
  revert Hd. unfold maybe_convert_objects, reads_as_float.
  rewrite py_of_sql_not_bool.
  destruct (existsb is_object (py_of_sql <$> vals)); simpl.
  - intros _. rewrite <- list_fmap_compose. by apply list_fmap_ext.
  - destruct (existsb is_float (py_of_sql <$> vals)
              || existsb is_none (py_of_sql <$> vals)
                 && existsb is_int (py_of_sql <$> vals)); simpl.
    + intros _. rewrite <- !list_fmap_compose. by apply list_fmap_ext.
    + destruct (existsb is_int (py_of_sql <$> vals)); simpl; intros _;
        rewrite <- list_fmap_compose; by apply list_fmap_ext.
Qed.

Lemma from_records_labels data columns :
  fst <$> df_columns (from_records data columns) = columns.
Proof.
  unfold from_records; simpl. rewrite fmap_imap.
  rewrite <- (list_fmap_id columns) at 2. rewrite <- imap_const.
  by apply imap_ext.
Qed.

Lemma tuple_item_py_of_sql j (rows : list (list sqlval)) :
  tuple_item j <$> ((λ row : list sqlval, py_of_sql <$> row) <$> rows) = py_of_sql <$> sql_column j rows.
Proof.
  unfold sql_column. rewrite <- !list_fmap_compose.
  apply list_fmap_ext. intros i row _. simpl. unfold tuple_item.
  rewrite list_lookup_fmap. by destruct (row !! j).
Qed.

(** Cleaning the frame of a batch of rows gives [chunk_records]. *)
Lemma clean_records_chunk columns (rows : list (list sqlval)) :
  NoDup columns →
  clean_records (from_records ((λ row : list sqlval, py_of_sql <$> row) <$> rows) columns)
  = Ok (chunk_records columns rows).
Proof.
  intros Hnd. unfold clean_records.
  rewrite clean_dataframe_columns
    by (by rewrite ?from_records_labels, ?from_records_accepts).
  simpl. f_equal. apply list_eq. intros i.
  set (df := map_columns _ _).
  assert (df_len df = length rows) as Hlen
    by (unfold df; simpl; by rewrite length_fmap).
  assert (NoDup (fst <$> df_columns df)) as Hnd'
    by (unfold df; by rewrite map_columns_labels, from_records_labels).
  unfold chunk_records. rewrite list_lookup_fmap.
  destruct (rows !! i) as [row|] eqn:Hrow; simpl.
  - rewrite to_dict_records_lookup
      by (done || (rewrite Hlen; by eapply lookup_lt_Some)).
    f_equal. unfold df, map_columns, from_records; simpl.
    rewrite !fmap_imap. apply imap_ext. intros j name Hj. simpl. f_equal.
    unfold cell_at, column_reader.
    rewrite tuple_item_py_of_sql, column_fields, list_lookup_fmap.
    unfold sql_column. by rewrite list_lookup_fmap, Hrow.
  - apply lookup_ge_None. rewrite to_dict_records_length, Hlen.
    by apply lookup_ge_None.
Qed.

Lemma column_reader_image rows j v : cell_image v (column_reader rows j v).
Proof.
  unfold cell_image, column_reader.
  destruct (reads_as_float _); [by right|by left].
Qed.

Lemma chunk_records_rows columns (rows : list (list sqlval)) :
  Forall (λ row : list sqlval, length row = length columns) rows →
  Forall2 (record_of_row columns) rows (chunk_records columns rows).
Proof.
  intros Hshape. unfold chunk_records. apply Forall2_fmap_r.
  apply Forall_Forall2_diag. eapply Forall_impl; [exact Hshape|].
  intros row Hlen. split.
  - rewrite fmap_imap. rewrite <- (list_fmap_id columns) at 2.
    rewrite <- imap_const. by apply imap_ext.
  - apply Forall2_same_length_lookup_2.
    + by rewrite length_fmap, length_imap.
    + intros j v o Hv Ho. rewrite fmap_imap, list_lookup_imap in Ho.
      destruct (columns !! j); [|done]. simpl in Ho. injection Ho as <-.
      rewrite Hv. simpl. apply column_reader_image.
Qed.

(** ** The chunked read *)

Lemma stream_length_stream_of rows : stream_length (stream_of rows) = length rows.
Proof. induction rows; simpl; congruence. Qed.

Lemma fetch_rows_stream_of n : ∀ rows,
  fetch_rows n (stream_of rows)
  = Ok ((λ row : list sqlval, py_of_sql <$> row) <$> take n rows,
        stream_of (drop n rows)).
Proof.
  induction n as [|n IH]; intros rows; simpl.
  - done.
  - destruct rows as [|r rows]; simpl; [done|]. by rewrite IH.
Qed.

Lemma fetchmany_stream_of size rows :
  0 < size →
  fetchmany size (stream_of rows)
  = Ok ((λ row : list sqlval, py_of_sql <$> row) <$> take size rows,
        stream_of (drop size rows)).
Proof. intros Hsize. destruct size; [lia|]. apply fetch_rows_stream_of. Qed.

Lemma fetch_rows_length n : ∀ cur data cur',
  fetch_rows n cur = Ok (data, cur') →
  stream_length cur = length data + stream_length cur'.
Proof.
  induction n as [|n IH]; intros cur data cur' H; simpl in H.
  - by injection H as <- <-.
  - destruct cur as [|e|r rest]; [by injection H as <- <-|done|].
    destruct (fetch_rows n rest) as [[d c]|] eqn:Hf; [|done].
    simpl in H. injection H as <- <-. simpl. f_equal. by apply IH.
Qed.

Lemma fetch_all_length : ∀ cur data cur',
  fetch_all cur = Ok (data, cur') →
  stream_length cur = length data + stream_length cur'.
Proof.
  induction cur as [|e|r rest IH]; intros data cur' H; simpl in H.
  - by injection H as <- <-.
  - done.
  - destruct (fetch_all rest) as [[d c]|] eqn:Hf; [|done].
    simpl in H. injection H as <- <-. simpl. f_equal. by apply IH.
Qed.

(** A fetch that returns has consumed the rows it returns. *)
Lemma fetchmany_length size cur data cur' :
  fetchmany size cur = Ok (data, cur') →
  stream_length cur = length data + stream_length cur'.
Proof.
  destruct size; [apply fetch_all_length|apply fetch_rows_length].
Qed.

(** The generator never runs out of fuel: any fuel above the number of
    rows left gives the same chunks. *)
Lemma query_iterator_fuel_enough size columns : ∀ fuel1 fuel2 cur has_read_data,
  stream_length cur < fuel1 → stream_length cur < fuel2 →
  query_iterator_from fuel1 size columns cur has_read_data
  = query_iterator_from fuel2 size columns cur has_read_data.
Proof.
  induction fuel1 as [|fuel1 IH]; intros fuel2 cur hrd H1 H2; [lia|].
  destruct fuel2 as [|fuel2]; [lia|]. simpl.
  destruct (fetchmany size cur) as [[data cur']|] eqn:Hf; [|done].
  destruct data as [|d data]; [done|]. f_equal.
  apply fetchmany_length in Hf. simpl in Hf. apply IH; lia.
Qed.

Lemma query_iterator_from_enough size columns fuel cur :
  stream_length cur < fuel →
  query_iterator_from fuel size columns cur false = query_iterator size columns cur.
Proof. intros H. apply query_iterator_fuel_enough; [done|lia]. Qed.

(** ** Batches *)

Lemma batches_from_concat size : 0 < size → ∀ fuel rows,
  length rows ≤ fuel → concat (batches_from fuel size rows) = rows.
Proof.
  intros Hsize. induction fuel as [|fuel IH]; intros rows Hlen.
  - destruct rows; [done|simpl in Hlen; lia].
  - destruct rows as [|r rows]; [done|].
    change (batches_from (S fuel) size (r :: rows))
      with (take size (r :: rows) :: batches_from fuel size (drop size (r :: rows))).
    simpl concat. rewrite IH; [apply take_drop|].
    rewrite length_drop. simpl in *. lia.
Qed.

Lemma batches_concat size rows : 0 < size → concat (batches size rows) = rows.
Proof. intros H. by apply batches_from_concat. Qed.

Lemma batches_from_fuel size : 0 < size → ∀ fuel1 fuel2 rows,
  length rows ≤ fuel1 → length rows ≤ fuel2 →
  batches_from fuel1 size rows = batches_from fuel2 size rows.
Proof.
  intros Hsize. induction fuel1 as [|fuel1 IH]; intros fuel2 rows H1 H2.
  - destruct rows; [by destruct fuel2|simpl in H1; lia].
  - destruct rows as [|r rows]; [by destruct fuel2|].
    destruct fuel2 as [|fuel2]; [simpl in H2; lia|].
    change (take size (r :: rows) :: batches_from fuel1 size (drop size (r :: rows))
            = take size (r :: rows) :: batches_from fuel2 size (drop size (r :: rows))).
    f_equal. apply IH; rewrite length_drop; simpl in *; lia.
Qed.

Lemma batches_bounded size fuel : ∀ rows,
  Forall (λ b : list (list sqlval), length b ≤ size) (batches_from fuel size rows).
Proof.
  induction fuel as [|fuel IH]; intros rows; [by destruct rows; constructor|].
  destruct rows as [|r rows]; [constructor|].
  change (batches_from (S fuel) size (r :: rows))
    with (take size (r :: rows) :: batches_from fuel size (drop size (r :: rows))).
  constructor; [|apply IH]. rewrite length_take. lia.
Qed.

(** ** One table *)

Lemma chunk_loop_step table df rest acc w recs :
  clean_records df = Ok recs →
  chunk_loop table (Ok df :: rest) acc w
  = chunk_loop table rest (acc ++ recs)
      (logged (LogProcessed (length (acc ++ recs)) table) w).
Proof.
  intros (df' & Hc & <-)%clean_records_Ok. simpl.
  unfold bind, lift, logger_info. by rewrite Hc.
Qed.

Lemma query_iterator_from_rows fuel size columns r rows has_read_data :
  query_iterator_from (S fuel) (S size) columns (stream_of (r :: rows)) has_read_data
  = Ok (from_records ((λ row : list sqlval, py_of_sql <$> row) <$> (r :: take size rows))
                     columns)
      :: query_iterator_from fuel (S size) columns
           (stream_of (drop (S size) (r :: rows))) true.
Proof.
  cbn [query_iterator_from]. by rewrite fetchmany_stream_of by lia.
Qed.

(** The loop over the chunks of a served table appends the records of the
    batches, and touches neither the connection nor the files. *)
Lemma chunk_loop_served table columns size :
  0 < size → NoDup columns →
  ∀ fuel rows, length rows ≤ fuel → ∀ has_read_data acc w,
    ∃ w', chunk_loop table
            (query_iterator_from (S fuel) size columns (stream_of rows) has_read_data)
            acc w
          = (Ok (acc ++ concat (chunk_records columns <$> batches_from fuel size rows)), w')
      ∧ w_conn w' = w_conn w ∧ w_files w' = w_files w.
Proof.
  intros Hsize Hnd.
  assert (∀ fuel hrd acc w,
    ∃ w', chunk_loop table (query_iterator_from (S fuel) size columns (stream_of []) hrd) acc w
          = (Ok (acc ++ []), w') ∧ w_conn w' = w_conn w ∧ w_files w' = w_files w) as Hempty.
  { intros fuel hrd acc w. destruct size as [|size]; [lia|]. simpl.
    destruct hrd; simpl.
    - exists w. by rewrite app_nil_r.
    - pose proof (clean_records_chunk columns [] Hnd) as Hc.
      apply clean_records_Ok in Hc as (df' & Hc & Hd). simpl in Hc.
      unfold bind, lift, logger_info, ret. rewrite Hc, Hd. by eexists. }
  induction fuel as [|fuel IH]; intros rows Hlen hrd acc w.
  - destruct rows; [|simpl in Hlen; lia]. apply Hempty.
  - destruct rows as [|r rows].
    { destruct (Hempty (S fuel) hrd acc w) as (w' & Hw & ?). by exists w'. }
    change (batches_from (S fuel) size (r :: rows))
      with (take size (r :: rows) :: batches_from fuel size (drop size (r :: rows))).
    destruct size as [|size]; [lia|].
    rewrite query_iterator_from_rows.
    change (take (S size) (r :: rows)) with (r :: take size rows).
    erewrite chunk_loop_step
      by (apply (clean_records_chunk columns (r :: take size rows) Hnd)).
    edestruct (IH (drop (S size) (r :: rows))) as (w' & Hw & Hconn & Hfiles);
      [| rewrite Hw; exists w'; split_and!;
         [by rewrite fmap_cons, concat_cons, !app_assoc | by rewrite Hconn | by rewrite Hfiles]].
    rewrite length_drop. simpl in *. lia.
Qed.

(** The extraction of a table that the database serves. *)
Lemma extract_table_served env size table columns rows w :
  0 < size → table_served env table columns rows →
  ∃ w', extract_table env size table w = (Ok (table_records size columns rows), w')
    ∧ w_conn w' = w_conn w ∧ w_files w' = w_files w.
Proof.
  intros Hsize (Hcount & Hselect & Hnd & _).
  unfold extract_table, bind, lift, logger_info.
  destruct (count_query env table) as [n|]; [|done].
  rewrite Hselect. unfold query_iterator. rewrite stream_length_stream_of.
  edestruct (chunk_loop_served table columns size Hsize Hnd (length rows) rows)
    as (w' & Hw & Hconn & Hfiles); [done|].
  rewrite Hw. exists w'. split_and!; [done| by rewrite Hconn | by rewrite Hfiles].
Qed.

Lemma table_records_rows size columns rows :
  0 < size →
  Forall (λ row : list sqlval, length row = length columns) rows →
  Forall2 (record_of_row columns) rows (table_records size columns rows).
Proof.
  intros Hsize. unfold table_records, batches.
  generalize (le_n (length rows)). generalize (length rows) at 2 3 as fuel.
  intros fuel. revert rows.
  induction fuel as [|fuel IH]; intros rows Hlen Hshape.
  - destruct rows; [constructor|simpl in Hlen; lia].
  - destruct rows as [|r rows]; [constructor|].
    change (batches_from (S fuel) size (r :: rows))
      with (take size (r :: rows) :: batches_from fuel size (drop size (r :: rows))).
    rewrite fmap_cons, concat_cons.
    rewrite <- (take_drop size (r :: rows)) at 1.
    apply Forall2_app.
    + apply chunk_records_rows. by apply Forall_take.
    + apply IH; [|by apply Forall_drop].
      rewrite length_drop. simpl in *. lia.
Qed.

(** ** Columns that do not depend on the batches *)

Lemma existsb_ext {A} (f g : A → bool) (l : list A) :
  (∀ x, f x = g x) → existsb f l = existsb g l.
Proof. intros H. induction l as [|x l IH]; simpl; [done|]. by rewrite H, IH. Qed.

Lemma existsb_subset {A} (f : A → bool) (l1 l2 : list A) :
  (∀ x, x ∈ l1 → x ∈ l2) → existsb f l1 = true → existsb f l2 = true.
Proof.
  intros Hsub (x & Hx & Hfx)%existsb_true_elem.
  apply existsb_exists. exists x. split; [|done].
  apply list_elem_of_In. auto.
Qed.

Lemma column_stable_subset (l1 l2 : list sqlval) :
  (∀ v, v ∈ l1 → v ∈ l2) → column_stable l2 = true → column_stable l1 = true.
Proof.
  intros Hsub. unfold column_stable.
  pose proof (existsb_subset is_snull _ _ Hsub).
  pose proof (existsb_subset is_sinteger _ _ Hsub).
  pose proof (existsb_subset is_sreal _ _ Hsub).
  pose proof (existsb_subset is_snan _ _ Hsub).
  destruct (existsb is_snull l1), (existsb is_sinteger l1),
    (existsb is_sreal l1), (existsb is_snan l1); simpl; try done;
  destruct (existsb is_snull l2), (existsb is_sinteger l2),
    (existsb is_sreal l2), (existsb is_snan l2); simpl; try done;
  naive_solver.
Qed.

Lemma column_reader_stable rows j v :
  column_stable (sql_column j rows) = true → v ∈ sql_column j rows →
  column_reader rows j v = as_object_cell v.
Proof.
  intros Hst Hv. unfold column_reader.
  destruct (reads_as_float (sql_column j rows)) eqn:Hf; [|done].
  unfold reads_as_float in Hf. rewrite !existsb_fmap in Hf.
  rewrite (existsb_ext (λ x, is_float (py_of_sql x)) is_sreal) in Hf by (by intros []).
  rewrite (existsb_ext (λ x, is_none (py_of_sql x)) is_snull) in Hf by (by intros []).
  rewrite (existsb_ext (λ x, is_int (py_of_sql x)) is_sinteger) in Hf by (by intros []).
  unfold column_stable in Hst.
  destruct (existsb is_snull (sql_column j rows)) eqn:Hn,
    (existsb is_sinteger (sql_column j rows)) eqn:Hi,
    (existsb is_sreal (sql_column j rows)) eqn:Hr,
    (existsb is_snan (sql_column j rows)) eqn:Hnan;
    simpl in Hst; try done;
    rewrite ?andb_false_r, ?andb_true_r in Hf; simpl in Hf; try done.
  pose proof (existsb_false_elem _ _ _ Hn Hv).
  pose proof (existsb_false_elem _ _ _ Hi Hv).
  pose proof (existsb_false_elem _ _ _ Hnan Hv).
  destruct v as [|z|f|s|b]; try done.
  unfold as_float_cell, as_object_cell. simpl in *. by destruct (is_nan f).
Qed.

Lemma table_stable_columns columns rows :
  table_stable columns rows = true ↔
  ∀ j, j < length columns → column_stable (sql_column j rows) = true.
Proof.
  unfold table_stable. rewrite forallb_forall. split.
  - intros H j Hj. apply H, in_seq. lia.
  - intros H j Hj%in_seq. apply H. lia.
Qed.

Lemma table_stable_subset columns (rows1 rows2 : list (list sqlval)) :
  (∀ row, row ∈ rows1 → row ∈ rows2) →
  table_stable columns rows2 = true → table_stable columns rows1 = true.
Proof.
  rewrite !table_stable_columns. intros Hsub H j Hj.
  eapply column_stable_subset; [|by apply H].
  unfold sql_column. intros v (row & -> & Hrow)%list_elem_of_fmap.
  apply list_elem_of_fmap. exists row. auto.
Qed.

Lemma chunk_records_stable columns rows :
  table_stable columns rows = true →
  chunk_records columns rows = canonical_records columns rows.
Proof.
  rewrite table_stable_columns. intros Hst.
  unfold chunk_records, canonical_records.
  apply list_fmap_ext. intros i row Hrow.
  apply imap_ext. intros j name Hj. simpl. f_equal.
  apply column_reader_stable; [by eapply Hst, lookup_lt_Some|].
  unfold sql_column. apply list_elem_of_fmap. exists row.
  split; [done|]. by eapply list_elem_of_lookup_2.
Qed.

Lemma canonical_records_app columns rows1 rows2 :
  canonical_records columns (rows1 ++ rows2)
  = canonical_records columns rows1 ++ canonical_records columns rows2.
Proof. unfold canonical_records. by rewrite fmap_app. Qed.

(** On a stable table the records are the same whatever the batches. *)
Lemma table_records_stable size columns rows :
  0 < size → table_stable columns rows = true →
  table_records size columns rows = canonical_records columns rows.
Proof.
  intros Hsize. unfold table_records, batches.
  generalize (le_n (length rows)). generalize (length rows) at 2 3 as fuel.
  intros fuel. revert rows.
  induction fuel as [|fuel IH]; intros rows Hlen Hst.
  - destruct rows; [done|simpl in Hlen; lia].
  - destruct rows as [|r rows]; [done|].
    change (batches_from (S fuel) size (r :: rows))
      with (take size (r :: rows) :: batches_from fuel size (drop size (r :: rows))).
    rewrite fmap_cons, concat_cons.
    rewrite <- (take_drop size (r :: rows)) at 3.
    rewrite canonical_records_app. f_equal.
    + apply chunk_records_stable.
      eapply table_stable_subset; [|exact Hst].
      intros row Hrow. rewrite <- (take_drop size (r :: rows)).
      apply elem_of_app. by left.
    + apply IH; [rewrite length_drop; simpl in *; lia|].
      eapply table_stable_subset; [|exact Hst].
      intros row Hrow. rewrite <- (take_drop size (r :: rows)).
      apply elem_of_app. by right.
Qed.

Lemma table_records_length size columns rows :
  0 < size → length (table_records size columns rows) = length rows.
Proof.
  intros Hsize. unfold table_records, batches.
  generalize (le_n (length rows)). generalize (length rows) at 2 3 as fuel.
  intros fuel. revert rows.
  induction fuel as [|fuel IH]; intros rows Hlen.
  - destruct rows; [done|simpl in Hlen; lia].
  - destruct rows as [|r rows]; [done|].
    change (batches_from (S fuel) size (r :: rows))
      with (take size (r :: rows) :: batches_from fuel size (drop size (r :: rows))).
    rewrite fmap_cons, concat_cons, length_app, IH
      by (rewrite length_drop; simpl in *; lia).
    unfold chunk_records. rewrite length_fmap.
    rewrite <- (take_drop size (r :: rows)) at 3. by rewrite length_app.
Qed.

Lemma table_records_labels size columns rows i r :
  table_records size columns rows !! i = Some r → fst <$> r = columns.
Proof.
  unfold table_records. intros Hr. apply list_elem_of_lookup_2 in Hr.
  apply list_elem_of_In, in_concat in Hr as (recs & Hrecs & Hr).
  apply list_elem_of_In in Hrecs, Hr.
  apply list_elem_of_fmap in Hrecs as (batch & -> & _).
  unfold chunk_records in Hr. apply list_elem_of_fmap in Hr as (row & -> & _).
  rewrite fmap_imap. rewrite <- (list_fmap_id columns) at 2.
  rewrite <- imap_const. by apply imap_ext.
Qed.

(** ** All tables *)

Lemma tables_loop_served env size schema : 0 < size →
  ∀ names processed_data w,
    tables_served env schema names →
    NoDup ((fst <$> processed_data) ++ names) →
    ∃ w', tables_loop env size names processed_data w
          = (Ok (processed_data ++
                 ((λ t, (t, table_records size (fst (schema t)) (snd (schema t))))
                    <$> names)), w')
      ∧ w_conn w' = w_conn w ∧ w_files w' = w_files w.
Proof.
  intros Hsize names.
  induction names as [|t names IH]; intros pd w Hserved Hnd.
  - exists w. simpl. by rewrite app_nil_r.
  - apply Forall_cons in Hserved as [Ht Hserved].
    destruct (extract_table_served env size t _ _ w Hsize Ht) as (w1 & H1 & Hc1 & Hf1).
    simpl. unfold bind. rewrite H1.
    assert (t ∉ fst <$> pd) as Hfresh.
    { apply NoDup_app in Hnd as (_ & Hdisj & _). intros Hin.
      apply (Hdisj t Hin). left. }
    rewrite dict_set_fresh by done.
    edestruct (IH (pd ++ [(t, table_records size (fst (schema t)) (snd (schema t)))]) w1)
      as (w' & Hw & Hc & Hf); [done| |].
    + rewrite fmap_app. simpl. rewrite <- app_assoc. done.
    + exists w'. rewrite Hw, <- app_assoc. split_and!; [done|congruence..].
Qed.

(** C4: when the database serves the listed tables, [extract_tables]
    returns, for every table in the order of the list, the records of the
    batches of its rows appended in read order; the batches are the rows in
    their order, so there are as many records as rows, and the i-th record
    carries the column labels and images of the cells of the i-th row. *)
Theorem extract_tables_order_and_count env size names schema w :
  0 < size → connect_error env = None → NoDup names →
  tables_served env schema names →
  ∃ processed_data w',
    extract_tables_with env size names w = (Ok processed_data, w')
    ∧ fst <$> processed_data = names
    ∧ ∀ table recs, (table, recs) ∈ processed_data →
        recs = concat (chunk_records (fst (schema table))
                         <$> batches size (snd (schema table)))
        ∧ concat (batches size (snd (schema table))) = snd (schema table)
        ∧ length recs = length (snd (schema table))
        ∧ Forall2 (record_of_row (fst (schema table))) (snd (schema table)) recs.
Proof.
  intros Hsize Hconn Hnd Hserved.
  unfold extract_tables_with, sqlite3_connect, bind, fail_if. rewrite Hconn. simpl.
  edestruct (tables_loop_served env size schema Hsize names []) as (w1 & H1 & _);
    [done|done|].
  rewrite H1. simpl. eexists _, _. split; [done|]. split.
  - rewrite <- list_fmap_compose. rewrite <- (list_fmap_id names) at 2.
    by apply list_fmap_ext.
  - intros table recs (t & [= -> ->] & Ht)%list_elem_of_fmap.
    unfold tables_served in Hserved. rewrite Forall_forall in Hserved.
    destruct (Hserved t Ht) as (_ & _ & _ & Hshape).
    split_and!; [done| by apply batches_concat
                | by apply table_records_length | by apply table_records_rows].
Qed.

Lemma table_served_env_plain table :
  table_served env_plain table ["c"; "t"] rows_plain.
Proof.
  split_and!; [done|done| |by repeat constructor].
  apply (bool_decide_unpack _). by vm_compute.
Qed.

Lemma table_served_env_int_null table :
  table_served env_int_null table ["c"; "t"] rows_int_null.
Proof.
  split_and!; [done|done| |by repeat constructor].
  apply (bool_decide_unpack _). by vm_compute.
Qed.

Lemma NoDup_tables : NoDup tables.
Proof. apply (bool_decide_unpack _). by vm_compute. Qed.

Lemma chunk_size_pos : 0 < chunk_size.
Proof. unfold chunk_size. lia. Qed.

Lemma extract_tables_order_and_count_witness :
  ∃ processed_data w',
    extract_tables env_plain world0 = (Ok processed_data, w')
    ∧ fst <$> processed_data = tables
    ∧ ∀ table recs, (table, recs) ∈ processed_data →
        recs = concat (chunk_records ["c"; "t"] <$> batches chunk_size rows_plain)
        ∧ concat (batches chunk_size rows_plain) = rows_plain
        ∧ length recs = length rows_plain
        ∧ Forall2 (record_of_row ["c"; "t"]) rows_plain recs.
Proof.
  apply (extract_tables_order_and_count env_plain chunk_size tables
           (λ _, (["c"; "t"], rows_plain)) world0).
  - exact chunk_size_pos.
  - reflexivity.
  - exact NoDup_tables.
  - apply Forall_forall. intros t _. apply table_served_env_plain.
Defined.

(** ** Batch sizes *)

(** The INTEGER 2^53 + 1 and a NULL in one batch: the column is read as
    float64, the integer is rounded to 2^53 and the NULL becomes 0.0. *)
Example records_of_one_batch :
  fst (extract_table env_int_null chunk_size "tb_encounter" world0)
  = Ok [ [("c", PFloat (S754_finite false 4503599627370496 1)); ("t", PStr "a")];
         [("c", PFloat float_zero); ("t", PStr "b")] ].
Proof. by vm_compute. Qed.

(** The same rows in batches of one row: the integer is kept, as an
    integer, and the NULL becomes the integer 0. *)
Example records_of_two_batches :
  fst (extract_table env_int_null 1 "tb_encounter" world0)
  = Ok [ [("c", PInt 9007199254740993); ("t", PStr "a")];
         [("c", PInt 0); ("t", PStr "b")] ].
Proof. by vm_compute. Qed.

(** C5, the claim as stated fails: with an INTEGER next to a NULL, one
    batch of two rows gives floats (the rounded integer and 0.0), two
    batches of one row give integers (the exact integer and 0). *)
Lemma batch_size_changes_records :
  ¬ (∀ env n m table columns rows w,
       0 < n → 0 < m → table_served env table columns rows →
       fst (extract_table env n table w) = fst (extract_table env m table w)).
Proof.
  intros H.
  specialize (H env_int_null 1 chunk_size "t" ["c"; "t"] rows_int_null world0
                ltac:(lia) chunk_size_pos (table_served_env_int_null "t")).
  vm_compute in H. discriminate H.
Qed.

(** C5, amended: for every positive batch size the table gives as many
    records as it has rows, in the same order and with the same column
    labels; each record holds images of the cells of its row.  The records
    are equal for all positive batch sizes when no column holds values of
    two of the classes NULL, INTEGER and REAL (and no NaN): the dtype of a
    column is inferred per batch, and it decides between [1] and [1.0], and
    between [0] and [0.0] for a NULL. *)
Theorem extract_table_batch_sizes env n m table columns rows w :
  0 < n → 0 < m → table_served env table columns rows →
  ∃ recs_n recs_m,
    fst (extract_table env n table w) = Ok recs_n
    ∧ fst (extract_table env m table w) = Ok recs_m
    ∧ length recs_n = length rows ∧ length recs_m = length rows
    ∧ Forall2 (record_of_row columns) rows recs_n
    ∧ Forall2 (record_of_row columns) rows recs_m
    ∧ Forall2 (λ r1 r2 : record, fst <$> r1 = fst <$> r2) recs_n recs_m
    ∧ (table_stable columns rows = true → recs_n = recs_m).
Proof.
  intros Hn Hm Hserved.
  destruct (extract_table_served env n table columns rows w Hn Hserved) as (wn & En & _).
  destruct (extract_table_served env m table columns rows w Hm Hserved) as (wm & Em & _).
  rewrite En, Em. eexists _, _. split_and!; [done|done|..].
  - by apply table_records_length.
  - by apply table_records_length.
  - apply table_records_rows; [done|]. by destruct Hserved as (_ & _ & _ & ?).
  - apply table_records_rows; [done|]. by destruct Hserved as (_ & _ & _ & ?).
  - apply Forall2_same_length_lookup_2.
    + by rewrite !table_records_length.
    + intros i r1 r2 H1 H2.
      by rewrite (table_records_labels _ _ _ _ _ H1), (table_records_labels _ _ _ _ _ H2).
  - intros Hst. by rewrite !table_records_stable.
Qed.

Lemma table_stable_rows_plain : table_stable ["c"; "t"] rows_plain = true.
Proof. by vm_compute. Qed.

Lemma extract_table_batch_sizes_witness :
  ∃ recs_n recs_m,
    fst (extract_table env_plain 1 "tb_encounter" world0) = Ok recs_n
    ∧ fst (extract_table env_plain chunk_size "tb_encounter" world0) = Ok recs_m
    ∧ length recs_n = length rows_plain ∧ length recs_m = length rows_plain
    ∧ Forall2 (record_of_row ["c"; "t"]) rows_plain recs_n
    ∧ Forall2 (record_of_row ["c"; "t"]) rows_plain recs_m
    ∧ Forall2 (λ r1 r2 : record, fst <$> r1 = fst <$> r2) recs_n recs_m
    ∧ (table_stable ["c"; "t"] rows_plain = true → recs_n = recs_m).
Proof.
  apply (extract_table_batch_sizes env_plain 1 chunk_size "tb_encounter"
           ["c"; "t"] rows_plain world0).
  - lia.
  - exact chunk_size_pos.
  - apply table_served_env_plain.
Defined.

(** ** What the reads of a table decide *)

Lemma chunk_loop_frame table chunks : ∀ acc w,
  w_conn (snd (chunk_loop table chunks acc w)) = w_conn w
  ∧ w_files (snd (chunk_loop table chunks acc w)) = w_files w.
Proof.
  induction chunks as [|[df|e] chunks IH]; intros acc w; simpl; [done| |done].
  unfold bind, lift, logger_info.
  destruct (clean_dataframe df) as [df'|]; [|done].
  destruct (IH (acc ++ to_dict_records df')
               (logged (LogProcessed (length (acc ++ to_dict_records df')) table) w))
    as [-> ->]. done.
Qed.

(** The records do not depend on the world the loop starts in. *)
Lemma chunk_loop_result table chunks : ∀ acc w1 w2,
  fst (chunk_loop table chunks acc w1) = fst (chunk_loop table chunks acc w2).
Proof.
  induction chunks as [|[df|e] chunks IH]; intros acc w1 w2; simpl; [done| |done].
  unfold bind, lift, logger_info.
  destruct (clean_dataframe df) as [df'|]; [|done]. apply IH.
Qed.

Lemma extract_table_result env size table w :
  fst (extract_table env size table w)
  = match count_query env table with
    | Raise e => Raise e
    | Ok _ =>
        match select_query env table with
        | Raise e => Raise e
        | Ok (columns, cursor) =>
            fst (chunk_loop table (query_iterator size columns cursor) [] w)
        end
    end.
Proof.
  unfold extract_table, bind, lift, logger_info.
  destruct (count_query env table) as [n|]; [|done].
  destruct (select_query env table) as [[columns cursor]|]; [|done].
  apply chunk_loop_result.
Qed.

Lemma extract_table_frame env size table w :
  w_conn (snd (extract_table env size table w)) = w_conn w
  ∧ w_files (snd (extract_table env size table w)) = w_files w.
Proof.
  unfold extract_table, bind, lift, logger_info.
  destruct (count_query env table) as [n|]; [|done].
  destruct (select_query env table) as [[columns cursor]|]; [|done].
  destruct (chunk_loop_frame table (query_iterator size columns cursor) []
              (logged (LogTotalRows table n) (logged (LogProcessingTable table) w)))
    as [-> ->]. done.
Qed.

(** ** The row count *)

(** C6, the claim as stated fails: when the row-count query raises, the
    table is not extracted, although the read of its rows would succeed. *)
Lemma count_failure_aborts_extraction :
  ¬ (∀ env size table columns rows w,
       0 < size → select_query env table = Ok (columns, stream_of rows) →
       NoDup columns →
       is_ok (fst (extract_table env size table w)) = true).
Proof.
  intros H.
  specialize (H env_count_fails chunk_size "tb_encounter" ["c"; "t"] rows_plain world0
                chunk_size_pos eq_refl).
  assert (NoDup ["c"; "t"]) as Hnd by (apply (bool_decide_unpack _); by vm_compute).
  specialize (H Hnd). rewrite extract_table_result in H. done.
Qed.

(** C6, amended: the answer to the row-count query goes to the log only:
    with any other answer the table gives the same records (or the same
    exception), the same connection state and the same files.  A failure of
    the row-count query is not caught: the extraction of the table raises
    it. *)
Theorem row_count_only_logged env answer size table w :
  is_ok (count_query env table) = true → is_ok (answer table) = true →
  fst (extract_table env size table w)
    = fst (extract_table (with_count env answer) size table w)
  ∧ w_conn (snd (extract_table env size table w))
    = w_conn (snd (extract_table (with_count env answer) size table w))
  ∧ w_files (snd (extract_table env size table w))
    = w_files (snd (extract_table (with_count env answer) size table w))
  ∧ ∀ env' e, count_query env' table = Raise e →
      fst (extract_table env' size table w) = Raise e.
Proof.
  intros H1 H2. split_and!.
  - rewrite !extract_table_result. simpl.
    destruct (count_query env table); [|done]. by destruct (answer table).
  - destruct (extract_table_frame env size table w) as [-> _].
    by destruct (extract_table_frame (with_count env answer) size table w) as [-> _].
  - destruct (extract_table_frame env size table w) as [_ ->].
    by destruct (extract_table_frame (with_count env answer) size table w) as [_ ->].
  - intros env' e He. rewrite extract_table_result. by rewrite He.
Qed.

Lemma row_count_only_logged_witness :
  fst (extract_table env_plain chunk_size "tb_encounter" world0)
    = fst (extract_table (with_count env_plain (λ _, Ok 0%Z)) chunk_size "tb_encounter" world0)
  ∧ w_conn (snd (extract_table env_plain chunk_size "tb_encounter" world0))
    = w_conn (snd (extract_table (with_count env_plain (λ _, Ok 0%Z)) chunk_size
                     "tb_encounter" world0))
  ∧ w_files (snd (extract_table env_plain chunk_size "tb_encounter" world0))
    = w_files (snd (extract_table (with_count env_plain (λ _, Ok 0%Z)) chunk_size
                      "tb_encounter" world0))
  ∧ ∀ env' e, count_query env' "tb_encounter" = Raise e →
      fst (extract_table env' chunk_size "tb_encounter" world0) = Raise e.
Proof.
  apply (row_count_only_logged env_plain (λ _, Ok 0%Z) chunk_size "tb_encounter" world0);
    reflexivity.
Defined.

(** ** Exceptions and the connection *)

Lemma putmask_zero_not_datetime mask s :
  is_datetime64 (s_dtype s) = false →
  is_datetime64 (s_dtype (putmask_zero mask s)) = false.
Proof.
  intros H. unfold putmask_zero. destruct (existsb mask (s_values s)); [|done].
  apply dtype_holding_zero_not_datetime.
Qed.

Lemma filter_none {A} (P : A → Prop) `{∀ x, Decision (P x)} (l : list A) :
  (∀ x, x ∈ l → ¬ P x) → filter P l = [].
Proof.
  induction l as [|x l IH]; intros Hl; [done|].
  rewrite filter_cons_False by (apply Hl; left).
  apply IH. intros y Hy. apply Hl. by right.
Qed.

(** A frame without datetime64 columns, and without a missing cell in a
    categorical column, is cleaned without a turn of the date loop,
    whatever its labels. *)
Lemma clean_dataframe_no_dates df :
  (∀ c, c ∈ df_columns df → is_datetime64 (s_dtype (snd c)) = false) →
  accepts_zero df = true →
  clean_dataframe df = Ok (df_where_notnull (df_replace to_replace df)).
Proof.
  intros Hnd Ha. rewrite clean_dataframe_accepted by done.
  unfold select_datetime64.
  rewrite filter_none; [done|].
  intros c Hc. unfold df_where_notnull, df_replace in Hc.
  rewrite map_columns_compose in Hc. unfold map_columns in Hc. simpl in Hc.
  apply list_elem_of_fmap in Hc as (c0 & -> & Hc0). simpl.
  rewrite putmask_zero_not_datetime; [done|].
  apply putmask_zero_not_datetime. by apply Hnd.
Qed.

Lemma from_records_no_dates data columns c :
  c ∈ df_columns (from_records data columns) → is_datetime64 (s_dtype (snd c)) = false.
Proof.
  unfold from_records; simpl. intros (j & Hj)%list_elem_of_lookup_1.
  rewrite list_lookup_imap in Hj.
  destruct (columns !! j); [|done]. simpl in Hj. injection Hj as <-. simpl.
  apply maybe_convert_objects_not_datetime.
Qed.

Lemma clean_dataframe_from_records data columns :
  is_ok (clean_dataframe (from_records data columns)) = true.
Proof.
  rewrite clean_dataframe_no_dates; [done| |apply from_records_accepts].
  intros c. apply from_records_no_dates.
Qed.

(** Every frame the generator yields is read by [from_records]. *)
Lemma query_iterator_from_frames size columns : ∀ fuel cur has_read_data df,
  Ok df ∈ query_iterator_from fuel size columns cur has_read_data →
  ∃ data, df = from_records data columns.
Proof.
  induction fuel as [|fuel IH]; intros cur hrd df Hin; simpl in Hin;
    [by apply elem_of_nil in Hin|].
  destruct (fetchmany size cur) as [[data cur']|e].
  - destruct data as [|d data].
    + destruct hrd; [by apply elem_of_nil in Hin|].
      apply list_elem_of_singleton in Hin as [= ->]. by eexists.
    + apply elem_of_cons in Hin as [[= ->]|Hin]; [by eexists|]. by eapply IH.
  - by apply list_elem_of_singleton in Hin.
Qed.

(** The loop over the chunks raises exactly when a chunk is an error of
    the read. *)
Lemma chunk_loop_reads table columns chunks :
  (∀ df, Ok df ∈ chunks → ∃ data, df = from_records data columns) →
  ∀ acc w, is_ok (fst (chunk_loop table chunks acc w)) = forallb is_ok chunks.
Proof.
  induction chunks as [|[df|e] chunks IH]; intros Hfr acc w; simpl; [done| |done].
  destruct (Hfr df) as (data & ->); [left|].
  pose proof (clean_dataframe_from_records data columns) as Hok.
  unfold bind, lift, logger_info.
  destruct (clean_dataframe (from_records data columns)) as [df'|]; [|done].
  apply IH. intros df Hdf. apply Hfr. by right.
Qed.

Lemma extract_table_reads env size table w :
  is_ok (fst (extract_table env size table w)) = table_reads env size table.
Proof.
  rewrite extract_table_result. unfold table_reads.
  destruct (count_query env table) as [n|]; [|done].
  destruct (select_query env table) as [[columns cursor]|]; [|done].
  apply (chunk_loop_reads table columns).
  intros df Hdf. by eapply query_iterator_from_frames.
Qed.

Lemma tables_loop_reads env size : ∀ names processed_data w,
  is_ok (fst (tables_loop env size names processed_data w))
    = forallb (table_reads env size) names
  ∧ w_conn (snd (tables_loop env size names processed_data w)) = w_conn w
  ∧ w_files (snd (tables_loop env size names processed_data w)) = w_files w.
Proof.
  intros names. induction names as [|t names IH]; intros pd w; simpl; [done|].
  unfold bind.
  pose proof (extract_table_reads env size t w) as Hr.
  pose proof (extract_table_frame env size t w) as [Hc Hf].
  destruct (extract_table env size t w) as [[recs|e] w1]; simpl in *.
  - rewrite <- Hr. simpl. rewrite <- Hc, <- Hf. apply IH.
  - by rewrite <- Hr.
Qed.

Lemma extract_table_result_any env size table w1 w2 :
  fst (extract_table env size table w1) = fst (extract_table env size table w2).
Proof.
  rewrite !extract_table_result.
  destruct (count_query env table) as [n|]; [|done].
  destruct (select_query env table) as [[columns cursor]|]; [|done].
  apply chunk_loop_result.
Qed.

(** The extracted data do not depend on the world the loop starts in. *)
Lemma tables_loop_result env size : ∀ names processed_data w1 w2,
  fst (tables_loop env size names processed_data w1)
  = fst (tables_loop env size names processed_data w2).
Proof.
  intros names. induction names as [|t names IH]; intros pd w1 w2; simpl; [done|].
  unfold bind. pose proof (extract_table_result_any env size t w1 w2) as Hr.
  destruct (extract_table env size t w1) as [[recs1|e1] w1'],
    (extract_table env size t w2) as [[recs2|e2] w2']; simpl in Hr; try done.
  - injection Hr as ->. apply IH.
  - by injection Hr as ->.
Qed.

Lemma database_opened_conn w : w_conn (database_opened w) = w_conn w.
Proof. unfold database_opened. by destruct (w_files w !! sql_dump_path). Qed.

Lemma database_opened_opened w : w_opened (database_opened w) = w_opened w.
Proof. unfold database_opened. by destruct (w_files w !! sql_dump_path). Qed.

(** C10: with the connection opened, [extract_tables] raises exactly when
    a read of one of the tables raises (the row-count query, the query for
    the rows, or a fetch), and then the connection is left open; the
    connection is closed exactly when every table has been read. *)
Theorem extract_tables_closes_only_on_success env size names w :
  connect_error env = None →
  let run := extract_tables_with env size names w in
  is_ok (fst run) = forallb (table_reads env size) names
  ∧ (is_ok (fst run) = false → w_conn (snd run) = Connected)
  ∧ (is_ok (fst run) = true → w_conn (snd run) = Closed)
  ∧ (∀ e, fst (tables_loop env size names []
                 (with_conn Connected w))
          = Raise e → fst run = Raise e).
Proof.
  intros Hconn. unfold extract_tables_with, sqlite3_connect, bind, fail_if.
  rewrite Hconn. simpl.
  set (w1 := (with_conn Connected (database_opened w))).
  destruct (tables_loop_reads env size names [] w1) as (Hr & Hc & _).
  pose proof (tables_loop_result env size names [] w1 (with_conn Connected w)) as Hw.
  destruct (tables_loop env size names [] w1) as [[pd|e] w2]; simpl in *.
  - split_and!; [done|done|done|]. intros e He. by rewrite He in Hw.
  - split_and!; [done| |done|]; [by intros _|].
    intros e' He. rewrite He in Hw. by injection Hw as ->.
Qed.

Lemma extract_tables_closes_only_on_success_witness :
  let run := extract_tables env_broken world0 in
  is_ok (fst run) = forallb (table_reads env_broken chunk_size) tables
  ∧ (is_ok (fst run) = false → w_conn (snd run) = Connected)
  ∧ (is_ok (fst run) = true → w_conn (snd run) = Closed)
  ∧ (∀ e, fst (tables_loop env_broken chunk_size tables []
                 (with_conn Connected world0))
          = Raise e → fst run = Raise e).
Proof.
  apply (extract_tables_closes_only_on_success env_broken chunk_size tables world0).
  reflexivity.
Defined.

(** At a source whose second fetch fails: the exception of the fetch comes
    out of [extract_tables], and the connection stays open. *)
Example extract_tables_env_broken :
  fst (extract_tables env_broken world0) = Raise (DatabaseError "disk I/O error")
  ∧ w_conn (snd (extract_tables env_broken world0)) = Connected.
Proof. by vm_compute. Qed.

(** ** Paths *)

Lemma output_file_not_marker table : output_file table ≠ marker_file.
Proof.
  unfold output_file, marker_file, path_join, output_dir.
  destruct (starts_with_slash (table +:+ "_preprocessed.json")) eqn:Hs.
  - destruct table as [|c table]; [done|]. simpl in *.
    intros [= -> _]. done.
  - simpl. intros [= H]. revert H.
    do 27 (destruct table as [|? table]; simpl; [discriminate|]; intros [= _ H]; revert H).
Qed.

Lemma string_length_append (s1 s2 : string) :
  String.length (s1 +:+ s2) = String.length s1 + String.length s2.
Proof. induction s1 as [|c s1 IH]; simpl; [done|]. by rewrite IH. Qed.

Lemma append_cancel_r (s1 s2 suffix : string) :
  s1 +:+ suffix = s2 +:+ suffix → s1 = s2.
Proof.
  revert s2. induction s1 as [|c1 s1 IH]; intros [|c2 s2] H; simpl in H.
  - done.
  - apply (f_equal String.length) in H.
    rewrite !string_length_append in H. simpl in H. lia.
  - apply (f_equal String.length) in H.
    rewrite !string_length_append in H. simpl in H. lia.
  - injection H as -> H. f_equal. by apply IH.
Qed.

Lemma output_file_inj t1 t2 : output_file t1 = output_file t2 → t1 = t2.
Proof.
  unfold output_file, path_join, output_dir.
  destruct (starts_with_slash (t1 +:+ "_preprocessed.json")) eqn:H1,
    (starts_with_slash (t2 +:+ "_preprocessed.json")) eqn:H2; simpl.
  - apply append_cancel_r.
  - intros H. rewrite H in H1. done.
  - intros H. rewrite <- H in H2. done.
  - intros [= H]. by eapply append_cancel_r.
Qed.

(** ** Export *)

Lemma write_json_ok env path data w :
  open_error env path = None → json_dumpable data = true →
  write_error env path = None →
  write_json env path data w = (Ok tt, with_file path (JsonArray data) (opened path w)).
Proof.
  intros Ho Hd Hw. unfold write_json, open_w, bind, fail_if.
  by rewrite Ho, Hd, Hw.
Qed.

(** A write of a table file that raises has opened at most that file. *)
Lemma write_json_raise env path data w :
  bool_decide (open_error env path = None) && json_dumpable data
    && bool_decide (write_error env path = None) = false →
  ∃ e w', write_json env path data w = (Raise e, w')
    ∧ (w' = w ∨ w' = opened path w).
Proof.
  intros H. unfold write_json, open_w, bind, fail_if.
  destruct (open_error env path) as [e|]; [by eexists _, _; split; [|left]|].
  destruct (json_dumpable data); [|by eexists _, _; split; [|right]].
  destruct (write_error env path) as [e|]; [by eexists _, _; split; [|right]|].
  done.
Qed.

Lemma export_loop_cons_ok env t data items w :
  open_error env (output_file t) = None → json_dumpable data = true →
  write_error env (output_file t) = None →
  export_loop env ((t, data) :: items) w
  = export_loop env items
      (logged (LogExported (length data) (output_file t))
         (with_file (output_file t) (JsonArray data) (opened (output_file t) w))).
Proof.
  intros Ho Hd Hw. simpl. unfold bind at 1.
  by rewrite (write_json_ok env _ _ _ Ho Hd Hw).
Qed.

Lemma export_loop_cons_raise env t data items w e w' :
  write_json env (output_file t) data w = (Raise e, w') →
  export_loop env ((t, data) :: items) w = (Raise e, w').
Proof. intros H. simpl. unfold bind at 1. by rewrite H. Qed.

(** The loop over the tables: it returns exactly when every table file can
    be written; it opens table files only, in the order of the tables; it
    leaves every other path alone; when it returns, every table file holds
    the complete data of its table. *)
Lemma export_loop_spec env : ∀ items w,
  let run := export_loop env items w in
  is_ok (fst run) = forallb (table_writable env) items
  ∧ (∃ k, w_opened (snd run) = w_opened w ++ (output_file <$> take k (fst <$> items))
          ∧ (is_ok (fst run) = true → k = length items))
  ∧ (∀ path, (∀ t, t ∈ fst <$> items → output_file t ≠ path) →
       w_files (snd run) !! path = w_files w !! path)
  ∧ (is_ok (fst run) = true → NoDup (fst <$> items) →
       ∀ t data, (t, data) ∈ items →
         w_files (snd run) !! output_file t = Some (JsonArray data)).
Proof.
  induction items as [|[t data] items IH]; intros w.
  - simpl. split_and!; [done| |done|].
    + exists 0. by rewrite app_nil_r.
    + intros _ _ ?? Hin. by apply elem_of_nil in Hin.
  - cbn zeta. cbn [forallb]. unfold table_writable at 1. cbn [fst snd].
    destruct (bool_decide (open_error env (output_file t) = None) && json_dumpable data
              && bool_decide (write_error env (output_file t) = None)) eqn:Hw.
    + apply andb_true_iff in Hw as [[Ho%bool_decide_eq_true Hd]%andb_true_iff
                                       Hwr%bool_decide_eq_true].
      rewrite (export_loop_cons_ok env _ _ _ _ Ho Hd Hwr).
      set (w1 := logged _ _).
      destruct (IH w1) as (Hok & (k & Hopened & Hk) & Hframe & Hfiles).
      split_and!.
      * done.
      * exists (S k). split; [|by intros ->%Hk].
        rewrite Hopened. simpl. by rewrite <- app_assoc.
      * intros path Hpath. rewrite Hframe by (intros t' Ht'; apply Hpath; by right).
        simpl. rewrite lookup_insert_ne by (apply Hpath; left).
        rewrite lookup_insert_ne by (apply Hpath; left). done.
      * intros Hall [Ht Hnd]%NoDup_cons t' data' [[= -> ->]|Hin]%elem_of_cons.
        -- rewrite Hframe; [simpl; by rewrite lookup_insert_eq|].
           intros t' Ht' ->%output_file_inj. done.
        -- by apply Hfiles.
    + destruct (write_json_raise env _ data w Hw) as (e & w' & Hraise & Hw').
      rewrite (export_loop_cons_raise env _ _ _ _ _ _ Hraise).
      simpl. split_and!; [done| |..].
      * destruct Hw' as [->| ->]; [exists 0|exists 1]; simpl;
          (split; [by rewrite ?app_nil_r|done]).
      * intros path Hpath. destruct Hw' as [->| ->]; [done|]. simpl.
        by rewrite lookup_insert_ne by (apply Hpath; left).
      * done.
Qed.

Lemma write_marker_frame env w path :
  path ≠ marker_file →
  w_files (snd (write_marker env w)) !! path = w_files w !! path.
Proof.
  intros Hne. unfold write_marker, open_w, bind, fail_if, set_file.
  destruct (open_error env marker_file); [done|].
  destruct (write_error env marker_file); simpl;
    by rewrite ?lookup_insert_ne by done.
Qed.

Lemma write_marker_ok env w :
  marker_writable env = true →
  write_marker env w = (Ok tt, with_file marker_file (Text marker_text) (opened marker_file w)).
Proof.
  intros [Ho%bool_decide_eq_true Hw%bool_decide_eq_true]%andb_true_iff.
  unfold write_marker, open_w, bind, fail_if, set_file. by rewrite Ho, Hw.
Qed.

Lemma export_after_loop env processed_data w :
  makedirs_error env = None →
  export_preprocessed_data env processed_data w
  = match export_loop env processed_data w with
    | (Ok _, w1) =>
        match write_marker env w1 with
        | (Ok _, w2) => (Ok true, w2)
        | (Raise e, w2) => (Raise e, w2)
        end
    | (Raise e, w1) => (Raise e, w1)
    end.
Proof.
  intros Hm. unfold export_preprocessed_data, bind at 1, fail_if. rewrite Hm.
  unfold ret at 1. unfold bind at 1.
  destruct (export_loop env processed_data w) as [[[]|e] w1]; [|done].
  unfold bind. by destruct (write_marker env w1) as [[[]|e] w2].
Qed.

(** C1: the marker file is written if and only if every table file has
    been written.  When writing the file of some table raises, the export
    raises and the marker is neither opened nor changed.  When every table
    file is written, the marker write is what runs next, after all of them:
    the table files hold the complete data, and, unless the write of the
    marker itself fails, the export returns True with the marker as the
    last file opened.  And a run that has opened the marker has written
    every table file. *)
Theorem marker_written_iff_tables_written env processed_data w :
  let run := export_preprocessed_data env processed_data w in
  let loop := export_loop env processed_data w in
  (forallb (table_writable env) processed_data = false →
     is_ok (fst run) = false
     ∧ (∃ opened', w_opened (snd run) = w_opened w ++ opened' ∧ marker_file ∉ opened')
     ∧ w_files (snd run) !! marker_file = w_files w !! marker_file)
  ∧ (makedirs_error env = None →
     forallb (table_writable env) processed_data = true →
     snd run = snd (write_marker env (snd loop))
     ∧ w_opened (snd loop) = w_opened w ++ (output_file <$> (fst <$> processed_data))
     ∧ (NoDup (fst <$> processed_data) → ∀ t data, (t, data) ∈ processed_data →
          w_files (snd run) !! output_file t = Some (JsonArray data))
     ∧ (marker_writable env = true →
          fst run = Ok true
          ∧ w_opened (snd run)
            = w_opened w ++ (output_file <$> (fst <$> processed_data)) ++ [marker_file]
          ∧ w_files (snd run) !! marker_file = Some (Text marker_text)))
  ∧ (∀ opened', w_opened (snd run) = w_opened w ++ opened' → marker_file ∈ opened' →
       makedirs_error env = None
       ∧ forallb (table_writable env) processed_data = true).
Proof.
  cbn zeta.
  destruct (export_loop_spec env processed_data w)
    as (Hok & (k & Hopened & Hk) & Hframe & Hfiles).
  assert (forallb (table_writable env) processed_data = false →
     is_ok (fst (export_preprocessed_data env processed_data w)) = false
     ∧ (∃ opened', w_opened (snd (export_preprocessed_data env processed_data w))
                   = w_opened w ++ opened' ∧ marker_file ∉ opened')
     ∧ w_files (snd (export_preprocessed_data env processed_data w)) !! marker_file
       = w_files w !! marker_file) as Hfail.
  { intros Hall. destruct (makedirs_error env) as [e|] eqn:Hm.
    - unfold export_preprocessed_data, bind, fail_if. rewrite Hm. simpl.
      split_and!; [done| |done]. exists []. rewrite app_nil_r.
      split; [done|]. apply not_elem_of_nil.
    - rewrite export_after_loop by done. rewrite Hall in Hok.
      destruct (export_loop env processed_data w) as [[[]|e] w1]; [done|].
      simpl in *. split_and!; [done| |].
      + eexists. split; [exact Hopened|].
        intros (t & Ht & _)%list_elem_of_fmap. symmetry in Ht.
        by apply output_file_not_marker in Ht.
      + apply Hframe. intros t _. apply output_file_not_marker. }
  split_and!.
  - exact Hfail.
  - intros Hm Hall. rewrite Hall in Hok. rewrite export_after_loop by done.
    destruct (export_loop env processed_data w) as [[[]|e] w1] eqn:Hloop; [|done].
    simpl in *. rewrite (Hk eq_refl) in Hopened.
    rewrite <- (length_fmap fst), firstn_all in Hopened.
    split_and!.
    + by destruct (write_marker env w1) as [[[]|e] w2].
    + done.
    + intros Hnd t data Hin.
      assert (w_files (snd (write_marker env w1)) !! output_file t
              = Some (JsonArray data)) as Hfile.
      { rewrite write_marker_frame by apply output_file_not_marker. by apply Hfiles. }
      by destruct (write_marker env w1) as [[[]|e] w2].
    + intros Hmw. rewrite (write_marker_ok env w1 Hmw). simpl.
      split_and!; [done| |by rewrite lookup_insert_eq].
      by rewrite Hopened, <- app_assoc.
  - intros opened' Hop Hin. destruct (makedirs_error env) as [e|] eqn:Hm.
    + unfold export_preprocessed_data, bind, fail_if in Hop. rewrite Hm in Hop.
      simpl in Hop. rewrite <- (app_nil_r (w_opened w)) in Hop at 1.
      apply app_inv_head in Hop as <-. by apply elem_of_nil in Hin.
    + split; [done|].
      destruct (forallb (table_writable env) processed_data) eqn:Hall; [done|].
      destruct (Hfail eq_refl) as (_ & (opened'' & Hop' & Hnotin) & _).
      rewrite Hop in Hop'. apply app_inv_head in Hop' as ->. done.
Qed.

Lemma marker_written_iff_tables_written_witness :
  let run := export_preprocessed_data env_plain data_plain world0 in
  let loop := export_loop env_plain data_plain world0 in
  (forallb (table_writable env_plain) data_plain = false →
     is_ok (fst run) = false
     ∧ (∃ opened', w_opened (snd run) = w_opened world0 ++ opened' ∧ marker_file ∉ opened')
     ∧ w_files (snd run) !! marker_file = w_files world0 !! marker_file)
  ∧ (makedirs_error env_plain = None →
     forallb (table_writable env_plain) data_plain = true →
     snd run = snd (write_marker env_plain (snd loop))
     ∧ w_opened (snd loop) = w_opened world0 ++ (output_file <$> (fst <$> data_plain))
     ∧ (NoDup (fst <$> data_plain) → ∀ t data, (t, data) ∈ data_plain →
          w_files (snd run) !! output_file t = Some (JsonArray data))
     ∧ (marker_writable env_plain = true →
          fst run = Ok true
          ∧ w_opened (snd run)
            = w_opened world0 ++ (output_file <$> (fst <$> data_plain)) ++ [marker_file]
          ∧ w_files (snd run) !! marker_file = Some (Text marker_text)))
  ∧ (∀ opened', w_opened (snd run) = w_opened world0 ++ opened' → marker_file ∈ opened' →
       makedirs_error env_plain = None
       ∧ forallb (table_writable env_plain) data_plain = true).
Proof.
  exact (marker_written_iff_tables_written env_plain data_plain world0).
Defined.

(** ** The run *)


(** A run whose second table holds bytes: the first file is complete, the
    second is cut short, the marker is not there. *)
Example export_with_bytes :
  let run := export_preprocessed_data env_plain
               [("tb_encounter", [[("c", PInt 1)]]);
                ("tb_person_mtr", [[("b", PBytes [Byte.x00])]])] world0 in
  is_ok (fst run) = false
  ∧ w_files (snd run) !! output_file "tb_encounter" = Some (JsonArray [[("c", PInt 1)]])
  ∧ w_files (snd run) !! output_file "tb_person_mtr" = Some Truncated
  ∧ w_files (snd run) !! marker_file = None.
Proof. by vm_compute. Qed.

(** * Further properties *)

(** ** Date strings and dates *)

Lemma digit_eq a b : digit a = digit b → a mod 10 = b mod 10.
Proof.
  unfold digit. intros H. apply (f_equal nat_of_ascii) in H.
  pose proof (Nat.mod_upper_bound a 10 ltac:(lia)).
  pose proof (Nat.mod_upper_bound b 10 ltac:(lia)).
  rewrite !nat_ascii_embedding in H by lia. lia.
Qed.

Lemma four_digits a b :
  a < 10 * 1000 → b < 10 * 1000 →
  (a / 1000) mod 10 = (b / 1000) mod 10 → (a / 100) mod 10 = (b / 100) mod 10 →
  (a / 10) mod 10 = (b / 10) mod 10 → a mod 10 = b mod 10 → a = b.
Proof.
  intros Ha Hb H3 H2 H1 H0.
  pose proof (Nat.div_mod_eq a 10). pose proof (Nat.div_mod_eq b 10).
  pose proof (Nat.div_mod_eq (a / 10) 10). pose proof (Nat.div_mod_eq (b / 10) 10).
  pose proof (Nat.div_mod_eq (a / 100) 10). pose proof (Nat.div_mod_eq (b / 100) 10).
  rewrite (Nat.Div0.div_div a 10 10) in *. rewrite (Nat.Div0.div_div b 10 10) in *.
  rewrite (Nat.Div0.div_div a 100 10) in *. rewrite (Nat.Div0.div_div b 100 10) in *.
  change (10 * 10) with 100 in *. change (100 * 10) with 1000 in *.
  assert (a / 1000 < 10) by (apply Nat.Div0.div_lt_upper_bound; lia).
  assert (b / 1000 < 10) by (apply Nat.Div0.div_lt_upper_bound; lia).
  rewrite (Nat.mod_small (a / 1000)) in H3 by lia.
  rewrite (Nat.mod_small (b / 1000)) in H3 by lia.
  lia.
Qed.

Lemma two_digits a b :
  a < 100 → b < 100 →
  (a / 10) mod 10 = (b / 10) mod 10 → a mod 10 = b mod 10 → a = b.
Proof.
  intros Ha Hb H1 H0.
  pose proof (Nat.div_mod_eq a 10). pose proof (Nat.div_mod_eq b 10).
  assert (a / 10 < 10) by (apply Nat.Div0.div_lt_upper_bound; lia).
  assert (b / 10 < 10) by (apply Nat.Div0.div_lt_upper_bound; lia).
  rewrite (Nat.mod_small (a / 10)) in H1 by lia.
  rewrite (Nat.mod_small (b / 10)) in H1 by lia.
  lia.
Qed.

Lemma valid_timestamp_bounds t :
  valid_timestamp t = true →
  ts_year t < 10 * 1000 ∧ ts_month t < 100 ∧ ts_day t < 100.
Proof.
  unfold valid_timestamp. rewrite !andb_true_iff, !Nat.leb_le, !Nat.ltb_lt. lia.
Qed.

Lemma digit_value_digit n : digit_value (digit n) = n mod 10.
Proof.
  unfold digit_value, digit.
  pose proof (Nat.mod_upper_bound n 10 ltac:(lia)).
  rewrite nat_ascii_embedding by lia. lia.
Qed.

Lemma four_digits_value a :
  a < 10 * 1000 →
  1000 * ((a / 1000) mod 10) + 100 * ((a / 100) mod 10) + 10 * ((a / 10) mod 10)
    + a mod 10 = a.
Proof.
  intros Ha.
  pose proof (Nat.div_mod_eq a 10).
  pose proof (Nat.div_mod_eq (a / 10) 10).
  pose proof (Nat.div_mod_eq (a / 100) 10).
  rewrite (Nat.Div0.div_div a 10 10) in *.
  rewrite (Nat.Div0.div_div a 100 10) in *.
  change (10 * 10) with 100 in *. change (100 * 10) with 1000 in *.
  assert (a / 1000 < 10) by (apply Nat.Div0.div_lt_upper_bound; lia).
  rewrite (Nat.mod_small (a / 1000)) by lia.
  lia.
Qed.

Lemma two_digits_value a : a < 100 → 10 * ((a / 10) mod 10) + a mod 10 = a.
Proof.
  intros Ha. pose proof (Nat.div_mod_eq a 10).
  assert (a / 10 < 10) by (apply Nat.Div0.div_lt_upper_bound; lia).
  rewrite (Nat.mod_small (a / 10)) by lia. lia.
Qed.

(** X1: the date string of a Timestamp is its calendar date in the layout
    YYYY-MM-DD: ten characters, from which the four digits before the first
    hyphen read back as the year, the two digits between the hyphens as the
    month and the last two as the day.  So two Timestamps have the same
    string exactly when they have the same year, month and day: nothing of
    the time of day is kept. *)
Theorem strftime_Ymd_keeps_the_date t1 t2 :
  valid_timestamp t1 = true → valid_timestamp t2 = true →
  is_ymd (strftime_Ymd t1) = true
  ∧ parse_ymd (strftime_Ymd t1) = Some (ts_year t1, ts_month t1, ts_day t1)
  ∧ (strftime_Ymd t1 = strftime_Ymd t2 ↔
     ts_year t1 = ts_year t2 ∧ ts_month t1 = ts_month t2 ∧ ts_day t1 = ts_day t2).
Proof.
  intros (Hy1 & Hm1 & Hd1)%valid_timestamp_bounds (Hy2 & Hm2 & Hd2)%valid_timestamp_bounds.
  split_and!.
  - apply strftime_Ymd_is_ymd.
  - unfold parse_ymd. rewrite strftime_Ymd_is_ymd, strftime_Ymd_chars.
    lazy beta iota. rewrite !digit_value_digit.
    by rewrite four_digits_value, !two_digits_value.
  - split.
    + intros H. apply (f_equal list_ascii_of_string) in H.
      rewrite !strftime_Ymd_chars in H.
      injection H as Y3 Y2 Y1 Y0 M1 M0 D1 D0.
      apply digit_eq in Y3, Y2, Y1, Y0, M1, M0, D1, D0.
      split_and!; [by apply four_digits | by apply two_digits | by apply two_digits].
    + intros (Hy & Hm & Hd). unfold strftime_Ymd. by rewrite Hy, Hm, Hd.
Qed.

Lemma strftime_Ymd_keeps_the_date_witness :
  is_ymd (strftime_Ymd ts_2023_05_14) = true
  ∧ parse_ymd (strftime_Ymd ts_2023_05_14) = Some (2023, 5, 14)
  ∧ (strftime_Ymd ts_2023_05_14 = strftime_Ymd ts_2023_05_14_late ↔
     ts_year ts_2023_05_14 = ts_year ts_2023_05_14_late
     ∧ ts_month ts_2023_05_14 = ts_month ts_2023_05_14_late
     ∧ ts_day ts_2023_05_14 = ts_day ts_2023_05_14_late).
Proof.
  apply (strftime_Ymd_keeps_the_date ts_2023_05_14 ts_2023_05_14_late); reflexivity.
Defined.

(** ** The Cleaner applied twice *)

Lemma has_null_cleaned_column s :
  Forall (λ v, cell_has_dtype (s_dtype s) v = true) (s_values s) →
  has_null (cleaned_column s) = false.
Proof.
  intros Hty. unfold has_null. rewrite cleaned_column_values, existsb_fmap.
  apply existsb_ext_false. intros v Hv. apply clean_cell_notnull.
  rewrite Forall_forall in Hty. by apply Hty.
Qed.

Lemma cleaned_column_not_datetime s :
  is_datetime64 (s_dtype (cleaned_column s)) = false.
Proof.
  rewrite cleaned_column_eq.
  destruct (has_null s); [apply dtype_holding_zero_not_datetime|].
  by destruct (is_datetime64 (s_dtype s)) eqn:Hd.
Qed.

Lemma cleaned_column_twice s :
  Forall (λ v, cell_has_dtype (s_dtype s) v = true) (s_values s) →
  cleaned_column (cleaned_column s) = cleaned_column s.
Proof.
  intros Hty. rewrite (cleaned_column_eq (cleaned_column s)).
  by rewrite has_null_cleaned_column, cleaned_column_not_datetime.
Qed.

(** X2: cleaning is idempotent: the batch that the Cleaner returns for a
    well-typed batch is cleaned to itself. *)
Theorem clean_dataframe_idempotent df df' :
  well_typed df → clean_dataframe df = Ok df' → clean_dataframe df' = Ok df'.
Proof.
  intros [Hnd Hty] Hc. pose proof (clean_dataframe_Ok_accepts _ _ Hc) as Ha.
  rewrite clean_dataframe_columns in Hc by done.
  injection Hc as <-. rewrite Forall_forall in Hty.
  rewrite clean_dataframe_columns.
  - rewrite map_columns_compose. f_equal. unfold map_columns. f_equal.
    apply list_fmap_ext. intros j [name s] Hj. simpl. f_equal.
    apply cleaned_column_twice.
    by destruct (Hty (name, s)) as [_ ?]; [by eapply list_elem_of_lookup_2|].
  - by rewrite map_columns_labels.
  - unfold accepts_zero. apply forallb_forall.
    intros c (c0 & -> & Hc0)%list_elem_of_In%list_elem_of_fmap. simpl.
    rewrite has_null_cleaned_column; [by rewrite andb_false_r|].
    by destruct (Hty c0) as [_ ?].
Qed.

Lemma clean_dataframe_idempotent_witness :
  ∃ df', clean_dataframe df_sample = Ok df' ∧ clean_dataframe df' = Ok df'.
Proof.
  destruct (clean_dataframe df_sample) as [df'|] eqn:Hc; [|by vm_compute in Hc].
  exists df'. split; [done|].
  exact (clean_dataframe_idempotent df_sample df' well_typed_df_sample Hc).
Defined.

(** ** A repeated label on a date column *)

Lemma filter_two {A} (P : A → Prop) `{∀ x, Decision (P x)} (l : list A) i j x y :
  i < j → l !! i = Some x → l !! j = Some y → P x → P y →
  2 ≤ length (filter P l).
Proof.
  intros Hij Hi Hj Hx Hy.
  rewrite <- (take_drop_middle l i x Hi), filter_app, filter_cons_True by done.
  rewrite length_app. simpl.
  assert (y ∈ filter P (drop (S i) l)) as Hin.
  { apply list_elem_of_filter. split; [done|].
    apply list_elem_of_lookup. exists (j - S i).
    rewrite lookup_drop. by replace (S i + (j - S i)) with j by lia. }
  destruct (filter P (drop (S i) l)); [by apply elem_of_nil in Hin|]. simpl. lia.
Qed.

Lemma setitem_labels df col s :
  col ∈ fst <$> df_columns df →
  fst <$> df_columns (setitem df col s) = fst <$> df_columns df.
Proof.
  intros ([k s0] & Hk & Hc)%list_elem_of_fmap. simpl in Hk. subst k.
  rewrite (setitem_present df col s0 s Hc). simpl.
  rewrite <- list_fmap_compose. apply list_fmap_ext. intros i c _. simpl.
  by destruct (decide (fst c = col)).
Qed.

Lemma filter_label_length {V} (l : list (string * V)) col :
  length (filter (λ c, fst c = col) l) = length (filter (λ k, k = col) (fst <$> l)).
Proof.
  induction l as [|[k v] l IH]; [done|]. csimpl.
  rewrite !filter_cons. simpl. destruct (decide (k = col)); simpl; by rewrite IH.
Qed.

(** The date loop raises an AttributeError as soon as one of its labels
    names two columns. *)
Lemma strftime_loop_repeated_label cols : ∀ df col,
  (∀ c, c ∈ cols → c ∈ fst <$> df_columns df) →
  col ∈ cols → 2 ≤ length (filter (λ k, k = col) (fst <$> df_columns df)) →
  ∃ msg, strftime_loop cols df = Raise (AttributeError msg).
Proof.
  induction cols as [|c cols IH]; intros df col Hlabels Hcol Htwo;
    [by apply elem_of_nil in Hcol|].
  simpl. unfold getitem_dt.
  pose proof (filter_label_length (df_columns df) c) as Hlen.
  destruct (filter (λ x, fst x = c) (df_columns df)) as [|x [|y rest]] eqn:Hf.
  - assert (c ∈ fst <$> df_columns df) as (x & -> & Hx)%list_elem_of_fmap
      by (apply Hlabels; left).
    assert (x ∈ filter (λ x0, fst x0 = fst x) (df_columns df)) as Hin
      by (by apply list_elem_of_filter).
    rewrite Hf in Hin. by apply elem_of_nil in Hin.
  - destruct (is_datetime64 (s_dtype (snd x))); [|by eexists]. simpl.
    assert (c ∈ fst <$> df_columns df) as Hc by (apply Hlabels; left).
    apply (IH _ col).
    + intros c' Hc'. rewrite setitem_labels by done. apply Hlabels. by right.
    + apply elem_of_cons in Hcol as [->|]; [|done].
      simpl in Hlen. rewrite <- Hlen in Htwo. lia.
    + by rewrite setitem_labels.
  - by eexists.
Qed.

Lemma putmask_zero_no_null mask s :
  (∀ v, mask v = true → isnull v = true) → has_null s = false →
  putmask_zero mask s = s.
Proof.
  intros Hmask Hnn. apply putmask_zero_no_match. apply existsb_ext_false.
  intros v Hv. destruct (mask v) eqn:Hm; [|done].
  apply Hmask in Hm. unfold has_null in Hnn.
  by rewrite (existsb_false_elem _ _ _ Hnn Hv) in Hm.
Qed.

(** X3: when two columns have the same label and one of them is a
    datetime64 column without missing values, [clean_dataframe] raises: a
    TypeError from the replacements when a categorical column holds a
    missing value, and otherwise an AttributeError from the date loop
    ([df[col]] is a frame then, and a frame has no [.dt]). *)
Theorem clean_dataframe_repeated_date_label df j1 j2 name s1 s2 :
  j1 ≠ j2 →
  df_columns df !! j1 = Some (name, s1) → df_columns df !! j2 = Some (name, s2) →
  s_dtype s1 = Datetime64 → has_null s1 = false →
  ∃ msg, clean_dataframe df
         = Raise (if accepts_zero df then AttributeError msg else TypeError msg).
Proof.
  intros Hne H1 H2 Hd Hnn.
  destruct (accepts_zero df) eqn:Ha;
    [|eexists; by apply clean_dataframe_refused].
  rewrite clean_dataframe_accepted by done.
  set (df2 := df_where_notnull (df_replace to_replace df)).
  assert (fst <$> df_columns df2 = fst <$> df_columns df) as Hlabels.
  { unfold df2, df_where_notnull, df_replace. by rewrite !map_columns_labels. }
  assert ((name, s1) ∈ df_columns df2) as Hin.
  { unfold df2, df_where_notnull, df_replace. rewrite map_columns_compose.
    unfold map_columns. simpl. apply list_elem_of_fmap. exists (name, s1).
    split; [|by eapply list_elem_of_lookup_2]. simpl. f_equal.
    rewrite (putmask_zero_no_null (mask_missing to_replace)) by done.
    rewrite putmask_zero_no_null; [done| |done].
    intros v. unfold notnull. by destruct (isnull v). }
  apply (strftime_loop_repeated_label _ _ name).
  - intros c (s & Hs & _)%select_datetime64_elem.
    apply list_elem_of_fmap. by exists (c, s).
  - apply select_datetime64_elem. exists s1. by rewrite Hd.
  - rewrite Hlabels.
    destruct (Nat.lt_total j1 j2) as [Hlt|[->|Hlt]]; [|done|].
    + eapply (filter_two _ _ j1 j2); [done| | |done|done];
        by rewrite list_lookup_fmap, ?H1, ?H2.
    + eapply (filter_two _ _ j2 j1); [done| | |done|done];
        by rewrite list_lookup_fmap, ?H1, ?H2.
Qed.

Lemma clean_dataframe_repeated_date_label_witness :
  ∃ msg, clean_dataframe df_repeated_label
         = Raise (if accepts_zero df_repeated_label
                  then AttributeError msg else TypeError msg).
Proof.
  apply (clean_dataframe_repeated_date_label df_repeated_label 0 1 "d"
           (mkSeries Datetime64 [PTimestamp ts_2023_05_14])
           (mkSeries Int64 [PInt 1])); (lia || reflexivity).
Defined.

(** ** The chunks of the read *)

Lemma fetch_rows_bound n : ∀ cur data cur',
  fetch_rows n cur = Ok (data, cur') → length data ≤ n.
Proof.
  induction n as [|n IH]; intros cur data cur' H; simpl in H.
  - by injection H as <- <-.
  - destruct cur as [|e|r rest]; [injection H as <- <-; simpl; lia|done|].
    destruct (fetch_rows n rest) as [[d c]|] eqn:Hf; [|done].
    simpl in H. injection H as <- <-. simpl. apply IH in Hf. lia.
Qed.

Lemma fetchmany_bound size cur data cur' :
  0 < size → fetchmany size cur = Ok (data, cur') → length data ≤ size.
Proof. intros Hsize. destruct size; [lia|]. apply fetch_rows_bound. Qed.

(** With size 0 a fetch that returns has exhausted the cursor. *)
Lemma fetch_all_exhausts : ∀ cur data cur',
  fetch_all cur = Ok (data, cur') → cur' = Eof.
Proof.
  induction cur as [|e|r rest IH]; intros data cur' H; simpl in H.
  - by injection H as <- <-.
  - done.
  - destruct (fetch_all rest) as [[d c]|] eqn:Hf; [|done].
    simpl in H. injection H as <- <-. simpl. by eapply IH.
Qed.

(** X4: whatever the cursor delivers, with a positive chunk size every
    frame that the chunked read yields has at most [size] rows and the
    columns of the query, and an error of the read ends the sequence of
    chunks. *)
Theorem query_iterator_chunks_bounded size columns cur :
  0 < size →
  (∀ df, Ok df ∈ query_iterator size columns cur →
     df_len df ≤ size ∧ fst <$> df_columns df = columns)
  ∧ (∀ i e, query_iterator size columns cur !! i = Some (Raise e) →
       length (query_iterator size columns cur) = S i).
Proof.
  intros Hsize.
  unfold query_iterator. generalize (S (stream_length cur)) as fuel.
  generalize false as hrd. intros hrd fuel. revert cur hrd.
  induction fuel as [|fuel IH]; intros cur hrd.
  - split; [by intros df Hin%elem_of_nil|done].
  - simpl. destruct (fetchmany size cur) as [[data cur']|e] eqn:Hf.
    + destruct data as [|d data].
      * destruct hrd; [split; [by intros df Hin%elem_of_nil|done]|].
        split.
        -- intros df [= ->]%list_elem_of_singleton.
           split; [simpl; lia|apply from_records_labels].
        -- by intros [|i] e.
      * destruct (IH cur' true) as [IH1 IH2]. split.
        -- intros df [[= ->]|Hin]%elem_of_cons; [|by apply IH1].
           split; [|apply from_records_labels].
           apply fetchmany_bound in Hf; done.
        -- intros [|i] e Hi; [done|]. simpl in *. f_equal. by eapply IH2.
    + split; [by intros df [=]%list_elem_of_singleton|].
      by intros [|i] e' Hi.
Qed.

Lemma query_iterator_chunks_bounded_witness :
  (∀ df, Ok df ∈ query_iterator 2 ["c"] (Row [SInteger 1] (Broken (DatabaseError "disk I/O error"))) →
     df_len df ≤ 2 ∧ fst <$> df_columns df = ["c"])
  ∧ (∀ i e, query_iterator 2 ["c"] (Row [SInteger 1] (Broken (DatabaseError "disk I/O error")))
              !! i = Some (Raise e) →
       length (query_iterator 2 ["c"]
                 (Row [SInteger 1] (Broken (DatabaseError "disk I/O error")))) = S i).
Proof.
  apply (query_iterator_chunks_bounded 2 ["c"]
           (Row [SInteger 1] (Broken (DatabaseError "disk I/O error")))).
  lia.
Defined.

Lemma batches_from_shape size : 0 < size → ∀ fuel rows,
  Forall (λ b : list (list sqlval), 0 < length b ∧ length b ≤ size)
         (batches_from fuel size rows)
  ∧ ∀ i b, batches_from fuel size rows !! i = Some b →
      is_Some (batches_from fuel size rows !! S i) → length b = size.
Proof.
  intros Hsize. induction fuel as [|fuel IH]; intros rows.
  - destruct rows; (split; [constructor|done]).
  - destruct rows as [|r rows]; [split; [constructor|done]|].
    change (batches_from (S fuel) size (r :: rows))
      with (take size (r :: rows) :: batches_from fuel size (drop size (r :: rows))).
    destruct (IH (drop size (r :: rows))) as [IH1 IH2]. split.
    + constructor; [|done]. rewrite length_take. simpl. lia.
    + intros [|i] b Hb Hnext; simpl in *; [|by eapply IH2].
      injection Hb as <-. rewrite length_take.
      destruct Hnext as [b' Hb'].
      destruct fuel as [|fuel']; [done|].
      destruct (drop size (r :: rows)) as [|r' rest] eqn:Hdrop; [done|].
      assert (length (drop size (r :: rows)) = S (length rest)) as Hlen
        by (by rewrite Hdrop).
      rewrite length_drop in Hlen. lia.
Qed.

Lemma query_iterator_from_batches size columns : 0 < size → ∀ fuel rows,
  length rows ≤ fuel →
  query_iterator_from (S fuel) size columns (stream_of rows) true
  = (λ b : list (list sqlval),
       Ok (from_records ((λ row : list sqlval, py_of_sql <$> row) <$> b) columns))
      <$> batches_from fuel size rows.
Proof.
  intros Hsize. induction fuel as [|fuel IH]; intros rows Hlen.
  - destruct rows; [|simpl in Hlen; lia]. by destruct size; [lia|].
  - destruct rows as [|r rows]; [by destruct size; [lia|]|].
    destruct size as [|size]; [lia|].
    rewrite query_iterator_from_rows.
    change (batches_from (S fuel) (S size) (r :: rows))
      with (take (S size) (r :: rows)
              :: batches_from fuel (S size) (drop (S size) (r :: rows))).
    etrans; [|symmetry; apply fmap_cons]. f_equal. apply IH.
    rewrite length_drop. simpl in *. lia.
Qed.

(** X5: the chunks of a table that is served and not empty are the frames of
    its batches: consecutive pieces of the rows, none of them empty, none
    longer than the batch size, and all but the last of exactly that
    size. *)
Theorem query_iterator_batches size columns rows :
  0 < size → rows ≠ [] →
  query_iterator size columns (stream_of rows)
  = (λ b : list (list sqlval),
       Ok (from_records ((λ row : list sqlval, py_of_sql <$> row) <$> b) columns))
      <$> batches size rows
  ∧ concat (batches size rows) = rows
  ∧ Forall (λ b : list (list sqlval), 0 < length b ∧ length b ≤ size) (batches size rows)
  ∧ ∀ i b, batches size rows !! i = Some b →
      is_Some (batches size rows !! S i) → length b = size.
Proof.
  intros Hsize Hrows. split_and!.
  - unfold query_iterator, batches. rewrite stream_length_stream_of.
    destruct rows as [|r rows]; [done|].
    destruct size as [|size]; [lia|].
    rewrite query_iterator_from_rows.
    change (batches_from (length (r :: rows)) (S size) (r :: rows))
      with (take (S size) (r :: rows)
              :: batches_from (length rows) (S size) (drop (S size) (r :: rows))).
    etrans; [|symmetry; apply fmap_cons]. f_equal.
    apply (query_iterator_from_batches (S size) columns Hsize (length rows)).
    rewrite length_drop. simpl. lia.
  - by apply batches_concat.
  - by apply batches_from_shape.
  - by apply batches_from_shape.
Qed.

Lemma query_iterator_batches_witness :
  query_iterator 2 ["c"; "t"] (stream_of rows_plain)
  = (λ b : list (list sqlval),
       Ok (from_records ((λ row : list sqlval, py_of_sql <$> row) <$> b) ["c"; "t"]))
      <$> batches 2 rows_plain
  ∧ concat (batches 2 rows_plain) = rows_plain
  ∧ Forall (λ b : list (list sqlval), 0 < length b ∧ length b ≤ 2) (batches 2 rows_plain)
  ∧ ∀ i b, batches 2 rows_plain !! i = Some b →
      is_Some (batches 2 rows_plain !! S i) → length b = 2.
Proof.
  apply (query_iterator_batches 2 ["c"; "t"] rows_plain); [lia|discriminate].
Defined.

(** ** Dates never come out of sqlite *)

Lemma no_dates_after_replace df :
  (∀ c, c ∈ df_columns df → is_datetime64 (s_dtype (snd c)) = false) →
  select_datetime64 (df_where_notnull (df_replace to_replace df)) = [].
Proof.
  intros Hnd. unfold select_datetime64. rewrite filter_none; [done|].
  intros c Hc. unfold df_where_notnull, df_replace in Hc.
  rewrite map_columns_compose in Hc. unfold map_columns in Hc. simpl in Hc.
  apply list_elem_of_fmap in Hc as (c0 & -> & Hc0). simpl.
  rewrite putmask_zero_not_datetime; [done|].
  apply putmask_zero_not_datetime. by apply Hnd.
Qed.

(** X6: no chunk read from sqlite has a datetime64 column, whatever the rows
    hold and whatever the column labels are: on every chunk of the read the
    date loop of the Cleaner makes no turn, and the Cleaner returns the
    chunk with its missing values replaced. *)
Theorem sqlite_chunks_have_no_dates size columns cur df :
  Ok df ∈ query_iterator size columns cur →
  (∀ c, c ∈ df_columns df → is_datetime64 (s_dtype (snd c)) = false)
  ∧ select_datetime64 (df_where_notnull (df_replace to_replace df)) = []
  ∧ clean_dataframe df = Ok (df_where_notnull (df_replace to_replace df)).
Proof.
  intros (data & ->)%query_iterator_from_frames.
  assert (∀ c, c ∈ df_columns (from_records data columns) →
               is_datetime64 (s_dtype (snd c)) = false) as Hnd
    by (intros c; apply from_records_no_dates).
  split_and!; [done|by apply no_dates_after_replace|].
  apply clean_dataframe_no_dates; [done|apply from_records_accepts].
Qed.

Lemma sqlite_chunks_have_no_dates_witness :
  ∃ df, Ok df ∈ query_iterator 2 ["c"; "c"] (stream_of rows_int_null)
    ∧ (∀ c, c ∈ df_columns df → is_datetime64 (s_dtype (snd c)) = false)
    ∧ select_datetime64 (df_where_notnull (df_replace to_replace df)) = []
    ∧ clean_dataframe df = Ok (df_where_notnull (df_replace to_replace df)).
Proof.
  eexists. split; [left|].
  eapply (sqlite_chunks_have_no_dates 2 ["c"; "c"] (stream_of rows_int_null)). left.
Defined.

(** ** What json.dump accepts of a table *)

Lemma cell_image_serializable v o :
  cell_image v o → json_serializable o = negb (is_sblob v).
Proof.
  intros [-> | ->]; destruct v as [|z|[]|s|b]; try done.
  unfold as_float_cell. simpl. by destruct (is_nan (float_of_Z z)).
Qed.

Lemma forallb_fmap {A B} (f : A → B) (p : B → bool) (l : list A) :
  forallb p (f <$> l) = forallb (λ x, p (f x)) l.
Proof. induction l as [|x l IH]; csimpl; [done|]. by rewrite IH. Qed.

Lemma record_of_row_serializable columns row (r : record) :
  record_of_row columns row r →
  forallb (λ kv : string * pyval, json_serializable (snd kv)) r
  = negb (existsb is_sblob row).
Proof.
  intros [_ Himg]. rewrite <- (forallb_fmap snd json_serializable).
  induction Himg as [|v o row os Hvo _ IH]; [done|]. simpl.
  by rewrite (cell_image_serializable v o Hvo), IH, negb_orb.
Qed.

Lemma records_of_rows_dumpable columns rows (recs : list record) :
  Forall2 (record_of_row columns) rows recs →
  json_dumpable recs = negb (has_blob rows).
Proof.
  unfold json_dumpable, has_blob.
  induction 1 as [|row r rows recs Hr _ IH]; [done|]. simpl.
  by rewrite (record_of_row_serializable columns row r Hr), IH, negb_orb.
Qed.

(** X7: the records extracted from a table are accepted by [json.dump] exactly
    when no cell of the table is a BLOB: the [sqlite3] module returns a
    BLOB as bytes, the Cleaner passes bytes through, and every other cell
    comes out as an integer, a float or a string. *)
Theorem extracted_records_dumpable_iff_no_blob env size table columns rows w :
  0 < size → table_served env table columns rows →
  ∃ recs, fst (extract_table env size table w) = Ok recs
    ∧ json_dumpable recs = negb (has_blob rows).
Proof.
  intros Hsize Hserved.
  destruct (extract_table_served env size table columns rows w Hsize Hserved)
    as (w' & Hw & _).
  rewrite Hw. eexists. split; [done|].
  apply (records_of_rows_dumpable columns). apply table_records_rows; [done|].
  by destruct Hserved as (_ & _ & _ & ?).
Qed.

Lemma extracted_records_dumpable_iff_no_blob_witness :
  ∃ recs, fst (extract_table env_plain chunk_size "tb_encounter" world0) = Ok recs
    ∧ json_dumpable recs = negb (has_blob rows_plain).
Proof.
  apply (extracted_records_dumpable_iff_no_blob env_plain chunk_size "tb_encounter"
           ["c"; "t"] rows_plain world0).
  - exact chunk_size_pos.
  - apply table_served_env_plain.
Defined.

(** ** The paths of the export *)

(** X8: the path that the export computes for the file of a table, as a
    string: the output directory, a slash, the table name and the suffix,
    unless the table name starts with a slash: then [os.path.join] drops
    the directory.  Two table names get the same path string only when
    they are the same name, and no table gets the path string of the
    marker.  (Whether two different path strings name one file, as the
    paths of the names [a] and [./a] do, is for the file system to say.) *)
Theorem output_paths_distinct t1 t2 :
  (output_file t1 = output_file t2 → t1 = t2)
  ∧ output_file t1 ≠ marker_file
  ∧ (starts_with_slash t1 = false →
       output_file t1 = output_dir +:+ "/" +:+ t1 +:+ "_preprocessed.json")
  ∧ (starts_with_slash t1 = true → output_file t1 = t1 +:+ "_preprocessed.json").
Proof.
  split_and!.
  - apply output_file_inj.
  - apply output_file_not_marker.
  - intros Hs. unfold output_file, path_join.
    by destruct t1 as [|c t1]; [|simpl in *; rewrite Hs].
  - intros Hs. unfold output_file, path_join.
    by destruct t1 as [|c t1]; [|simpl in *; rewrite Hs].
Qed.

Lemma write_marker_result env w :
  is_ok (fst (write_marker env w)) = marker_writable env.
Proof.
  unfold write_marker, open_w, bind, fail_if, set_file, marker_writable.
  destruct (open_error env marker_file); [done|].
  by destruct (write_error env marker_file).
Qed.

(** X9: the export returns True exactly when the directory can be made, every
    table file can be written and the marker can be written; it never
    returns False. *)
Theorem export_returns_True_iff env processed_data w :
  (fst (export_preprocessed_data env processed_data w) = Ok true ↔
     makedirs_error env = None
     ∧ forallb (table_writable env) processed_data = true
     ∧ marker_writable env = true)
  ∧ fst (export_preprocessed_data env processed_data w) ≠ Ok false.
Proof.
  destruct (makedirs_error env) as [e|] eqn:Hm.
  - unfold export_preprocessed_data, bind, fail_if. rewrite Hm. simpl.
    split; [|done]. split; [done|by intros [? _]].
  - rewrite export_after_loop by done.
    destruct (export_loop_spec env processed_data w) as (Hok & _).
    destruct (export_loop env processed_data w) as [[[]|e] w1]; simpl in Hok.
    + pose proof (write_marker_result env w1) as Hmw.
      destruct (write_marker env w1) as [[[]|e] w2]; simpl in Hmw;
        rewrite <- Hok, <- Hmw; (split; [|done]); split; try done; by intros (_ & _ & ?).
    + rewrite <- Hok. split; [|done]. split; [done|by intros (_ & ? & _)].
Qed.

Lemma export_loop_app env : ∀ items1 items2 w,
  export_loop env (items1 ++ items2) w
  = match export_loop env items1 w with
    | (Ok _, w1) => export_loop env items2 w1
    | (Raise e, w1) => (Raise e, w1)
    end.
Proof.
  induction items1 as [|[t data] items1 IH]; intros items2 w; [done|].
  simpl. unfold bind, logger_info.
  destruct (write_json env (output_file t) data w) as [[[]|e] w1]; [apply IH|done].
Qed.

(** X10: nothing is rolled back: when the file of a table cannot be written,
    the files of the tables before it hold their complete data, the file of
    that table is untouched or cut short, and the files of the tables after
    it and the marker are untouched. *)
Theorem export_failure_keeps_earlier_files env items1 t data items2 w :
  makedirs_error env = None →
  NoDup (fst <$> (items1 ++ (t, data) :: items2)) →
  forallb (table_writable env) items1 = true →
  table_writable env (t, data) = false →
  let run := export_preprocessed_data env (items1 ++ (t, data) :: items2) w in
  is_ok (fst run) = false
  ∧ (∀ t' data', (t', data') ∈ items1 →
       w_files (snd run) !! output_file t' = Some (JsonArray data'))
  ∧ (w_files (snd run) !! output_file t = w_files w !! output_file t
     ∨ w_files (snd run) !! output_file t = Some Truncated)
  ∧ (∀ t' data', (t', data') ∈ items2 →
       w_files (snd run) !! output_file t' = w_files w !! output_file t')
  ∧ w_files (snd run) !! marker_file = w_files w !! marker_file.
Proof.
  intros Hm Hnd Hall Hfail. cbn zeta.
  rewrite fmap_app in Hnd. apply NoDup_app in Hnd as (Hnd1 & Hdisj & Hnd2).
  simpl in Hnd2. apply NoDup_cons in Hnd2 as [Ht2 _].
  rewrite export_after_loop, export_loop_app by done.
  destruct (export_loop_spec env items1 w) as (Hok & _ & Hframe & Hfiles).
  rewrite Hall in Hok.
  destruct (export_loop env items1 w) as [[[]|e] w1]; [|done].
  simpl in Hok, Hframe, Hfiles. lazy beta iota.
  destruct (write_json_raise env (output_file t) data w1 Hfail) as (e & w' & Hraise & Hw').
  rewrite (export_loop_cons_raise env _ _ _ _ _ _ Hraise). simpl.
  assert (∀ t', t' ∈ fst <$> items1 → output_file t' ≠ output_file t) as Hne1.
  { intros t' Ht' ->%output_file_inj. apply (Hdisj t Ht'). left. }
  assert (∀ path, path ≠ output_file t → w_files w' !! path = w_files w1 !! path) as Hw1.
  { intros path Hpath. destruct Hw' as [->| ->]; [done|]. simpl.
    by rewrite lookup_insert_ne. }
  split_and!.
  - done.
  - intros t' data' Hin. rewrite Hw1; [by apply Hfiles|].
    apply Hne1. apply list_elem_of_fmap. by exists (t', data').
  - destruct Hw' as [->| ->].
    + left. apply Hframe. intros t' Ht'. by apply Hne1.
    + right. simpl. by rewrite lookup_insert_eq.
  - intros t' data' Hin.
    assert (t' ∈ fst <$> items2) as Ht' by (apply list_elem_of_fmap; by exists (t', data')).
    rewrite Hw1.
    + apply Hframe. intros t'' Ht'' ->%output_file_inj.
      apply (Hdisj t' Ht''). by right.
    + intros ->%output_file_inj. done.
  - rewrite Hw1 by (intros H; symmetry in H; by apply output_file_not_marker in H).
    apply Hframe. intros t' _. apply output_file_not_marker.
Qed.

Lemma export_failure_keeps_earlier_files_witness :
  let run := export_preprocessed_data env_unwritable
               ([("tb_encounter", [[("c", PInt 1)]])]
                ++ ("tb_person_mtr", [[("c", PInt 2)]]) :: [("tb_emr_surgery_info", [])])
               world0 in
  is_ok (fst run) = false
  ∧ (∀ t' data', (t', data') ∈ [("tb_encounter", [[("c", PInt 1)]])] →
       w_files (snd run) !! output_file t' = Some (JsonArray data'))
  ∧ (w_files (snd run) !! output_file "tb_person_mtr"
       = w_files world0 !! output_file "tb_person_mtr"
     ∨ w_files (snd run) !! output_file "tb_person_mtr" = Some Truncated)
  ∧ (∀ t' data', (t', data') ∈ [("tb_emr_surgery_info", @nil record)] →
       w_files (snd run) !! output_file t' = w_files world0 !! output_file t')
  ∧ w_files (snd run) !! marker_file = w_files world0 !! marker_file.
Proof.
  apply (export_failure_keeps_earlier_files env_unwritable
           [("tb_encounter", [[("c", PInt 1)]])] "tb_person_mtr" [[("c", PInt 2)]]
           [("tb_emr_surgery_info", [])] world0).
  - reflexivity.
  - apply (bool_decide_unpack _). by vm_compute.
  - by vm_compute.
  - by vm_compute.
Defined.

(** ** The whole run *)

Lemma chunk_loop_opened table chunks : ∀ acc w,
  w_opened (snd (chunk_loop table chunks acc w)) = w_opened w.
Proof.
  induction chunks as [|[df|e] chunks IH]; intros acc w; simpl; [done| |done].
  unfold bind, lift, logger_info.
  destruct (clean_dataframe df) as [df'|]; [|done]. by rewrite IH.
Qed.

Lemma extract_table_opened env size table w :
  w_opened (snd (extract_table env size table w)) = w_opened w.
Proof.
  unfold extract_table, bind, lift, logger_info.
  destruct (count_query env table) as [n|]; [|done].
  destruct (select_query env table) as [[columns cursor]|]; [|done].
  by rewrite chunk_loop_opened.
Qed.

Lemma tables_loop_opened env size : ∀ names processed_data w,
  w_opened (snd (tables_loop env size names processed_data w)) = w_opened w.
Proof.
  intros names. induction names as [|t names IH]; intros pd w; simpl; [done|].
  unfold bind. pose proof (extract_table_opened env size t w) as Ho.
  destruct (extract_table env size t w) as [[recs|e] w1]; simpl in *; [|done].
  by rewrite IH.
Qed.


Lemma write_json_conn env path data w :
  w_conn (snd (write_json env path data w)) = w_conn w.
Proof.
  unfold write_json, open_w, bind, fail_if, set_file, raise.
  destruct (open_error env path); [done|].
  destruct (json_dumpable data); [|done].
  by destruct (write_error env path).
Qed.

Lemma export_loop_conn env : ∀ items w,
  w_conn (snd (export_loop env items w)) = w_conn w.
Proof.
  induction items as [|[t data] items IH]; intros w; [done|].
  simpl. unfold bind, logger_info.
  pose proof (write_json_conn env (output_file t) data w) as Hc.
  destruct (write_json env (output_file t) data w) as [[[]|e] w1]; simpl in *; [|done].
  by rewrite IH.
Qed.

Lemma export_conn env processed_data w :
  w_conn (snd (export_preprocessed_data env processed_data w)) = w_conn w.
Proof.
  destruct (makedirs_error env) as [e|] eqn:Hm.
  - unfold export_preprocessed_data, bind, fail_if. by rewrite Hm.
  - rewrite export_after_loop by done.
    pose proof (export_loop_conn env processed_data w) as Hc.
    destruct (export_loop env processed_data w) as [[[]|e] w1]; simpl in *; [|done].
    assert (w_conn (snd (write_marker env w1)) = w_conn w1) as Hm1.
    { unfold write_marker, open_w, bind, fail_if, set_file.
      destruct (open_error env marker_file); [done|].
      by destruct (write_error env marker_file). }
    destruct (write_marker env w1) as [[[]|e] w2]; simpl in *; congruence.
Qed.

Lemma export_Ok_marker env processed_data w b :
  fst (export_preprocessed_data env processed_data w) = Ok b →
  w_files (snd (export_preprocessed_data env processed_data w)) !! marker_file
  = Some (Text marker_text).
Proof.
  destruct (makedirs_error env) as [e|] eqn:Hm.
  - unfold export_preprocessed_data, bind, fail_if. by rewrite Hm.
  - rewrite export_after_loop by done.
    destruct (export_loop env processed_data w) as [[[]|e] w1]; [|done].
    pose proof (write_marker_result env w1) as Hr.
    destruct (marker_writable env) eqn:Hmw.
    + rewrite (write_marker_ok env w1 Hmw). simpl. intros _.
      by rewrite lookup_insert_eq.
    + by destruct (write_marker env w1) as [[[]|e] w2].
Qed.

Lemma extract_tables_Ok_closed env size names w pd w1 :
  extract_tables_with env size names w = (Ok pd, w1) → w_conn w1 = Closed.
Proof.
  unfold extract_tables_with, sqlite3_connect, bind, fail_if.
  destruct (connect_error env) as [e|]; [done|]. simpl.
  destruct (tables_loop env size names [] (with_conn Connected (database_opened w)))
    as [[pd'|e] w2]; [|done].
  simpl. by intros [= _ <-].
Qed.

(** X11: [main] ends on one of two log lines.  When it returns, the last line
    is the completion message, the marker file holds its text and the
    connection is closed.  When it raises, the exception is the one that
    the extraction or the export raised, and the last line of the log
    reports it. *)
Theorem main_outcome env w :
  let run := main env w in
  let start := logged (LogInfo "Starting preprocessing...") w in
  match fst run with
  | Ok _ =>
      last (w_log (snd run)) = Some (LogInfo "Preprocessing completed successfully")
      ∧ w_files (snd run) !! marker_file = Some (Text marker_text)
      ∧ w_conn (snd run) = Closed
  | Raise e =>
      last (w_log (snd run)) = Some (LogError "Preprocessing failed" e)
      ∧ (fst (extract_tables env start) = Raise e
         ∨ ∃ processed_data w1,
             extract_tables env start = (Ok processed_data, w1)
             ∧ fst (export_preprocessed_data env processed_data w1) = Raise e)
  end.
Proof.
  cbn zeta. unfold main, try_except, bind, logger_info, raise.
  destruct (extract_tables env (logged (LogInfo "Starting preprocessing...") w))
    as [[pd|e] w1] eqn:Hex; simpl.
  - pose proof (export_Ok_marker env pd w1) as Hmarker.
    pose proof (export_conn env pd w1) as Hconn.
    destruct (export_preprocessed_data env pd w1) as [[b|e] w2] eqn:Hexp; simpl in *.
    + split_and!; [apply last_snoc|by eapply Hmarker|].
      rewrite Hconn. by eapply extract_tables_Ok_closed.
    + split; [apply last_snoc|]. right. exists pd, w1.
      split; [done|]. by rewrite Hexp.
  - split; [apply last_snoc|]. by left.
Qed.



(** ** From the database to the files *)

Lemma export_reliable env (items : dataset) w :
  fs_reliable env → NoDup (fst <$> items) →
  Forall (λ item : string * list record, json_dumpable (snd item) = true) items →
  ∃ w', export_preprocessed_data env items w = (Ok true, w')
    ∧ w_conn w' = w_conn w
    ∧ (∀ t data, (t, data) ∈ items → w_files w' !! output_file t = Some (JsonArray data))
    ∧ w_files w' !! marker_file = Some (Text marker_text)
    ∧ w_opened w' = w_opened w ++ (output_file <$> (fst <$> items)) ++ [marker_file].
Proof.
  intros [Hm Hfs] Hnd Hdump.
  assert (forallb (table_writable env) items = true) as Hall.
  { apply forallb_forall. intros [t data] Hin%list_elem_of_In.
    rewrite Forall_forall in Hdump. unfold table_writable. simpl.
    destruct (Hfs (output_file t)) as [-> ->].
    pose proof (Hdump (t, data) Hin) as Hd. simpl in Hd. rewrite Hd.
    by rewrite !bool_decide_eq_true_2. }
  assert (marker_writable env = true) as Hmw.
  { unfold marker_writable. destruct (Hfs marker_file) as [-> ->].
    by rewrite !bool_decide_eq_true_2. }
  pose proof (export_conn env items w) as Hconn.
  rewrite export_after_loop in * by done.
  destruct (export_loop_spec env items w) as (Hok & (k & Hopened & Hk) & Hframe & Hfiles).
  rewrite Hall in Hok.
  destruct (export_loop env items w) as [[[]|e] w1]; [|done]. simpl in *.
  rewrite (write_marker_ok env w1 Hmw) in *. simpl in *.
  eexists. split; [done|]. split_and!.
  - done.
  - intros t data Hin. unfold with_file, opened. cbn [w_files].
    rewrite lookup_insert_ne
      by (intros H; symmetry in H; by apply output_file_not_marker in H).
    rewrite lookup_insert_ne
      by (intros H; symmetry in H; by apply output_file_not_marker in H).
    by apply Hfiles.
  - unfold with_file. cbn [w_files]. by rewrite lookup_insert_eq.
  - unfold with_file, opened. cbn [w_opened].
    rewrite Hopened, (Hk eq_refl), <- (length_fmap fst), firstn_all.
    by rewrite <- app_assoc.
Qed.

(** X13: the run from end to end: when the database serves the four tables,
    none of them holds a BLOB and the file system does not fail, [main]
    returns; the connection is closed, every table has its file with the
    records of its rows, read in batches of 100000, the marker file holds
    its text, and the files have been opened in the order of the tables,
    the marker last. *)
Theorem main_writes_all_tables env schema w :
  connect_error env = None → tables_served env schema tables →
  (∀ t, t ∈ tables → has_blob (snd (schema t)) = false) →
  fs_reliable env →
  ∃ w', main env w = (Ok tt, w')
    ∧ w_conn w' = Closed
    ∧ (∀ t, t ∈ tables →
         w_files w' !! output_file t
         = Some (JsonArray (table_records chunk_size (fst (schema t)) (snd (schema t)))))
    ∧ w_files w' !! marker_file = Some (Text marker_text)
    ∧ w_opened w' = w_opened w ++ (output_file <$> tables) ++ [marker_file].
Proof.
  intros Hconn Hserved Hblob Hfs.
  set (start := logged (LogInfo "Starting preprocessing...") w).
  set (items := (λ t, (t, table_records chunk_size (fst (schema t)) (snd (schema t))))
                  <$> tables).
  assert (fst <$> items = tables) as Hlabels.
  { unfold items. rewrite <- list_fmap_compose.
    rewrite <- (list_fmap_id tables) at 2. by apply list_fmap_ext. }
  assert (∃ w1, extract_tables env start = (Ok items, w1)
                ∧ w_conn w1 = Closed
                ∧ w_opened w1 = w_opened w) as (w1 & Hex & Hc1 & Ho1).
  { edestruct (tables_loop_served env chunk_size schema chunk_size_pos tables []
                 (with_conn Connected (database_opened start))) as (w2 & H2 & _ & Hf2);
      [done|exact NoDup_tables|].
    pose proof (tables_loop_opened env chunk_size tables []
                  (with_conn Connected (database_opened start)))
      as Ho2. rewrite H2 in Ho2. simpl in H2, Ho2, Hf2.
    rewrite database_opened_opened in Ho2.
    exists (with_conn Closed w2). split_and!; [|done..].
    unfold extract_tables, extract_tables_with, sqlite3_connect, bind, fail_if.
    rewrite Hconn. simpl. by rewrite H2. }
  destruct (export_reliable env items w1 Hfs) as (w2 & Hexp & Hc2 & Hfiles & Hmarker & Ho2).
  { rewrite Hlabels. exact NoDup_tables. }
  { apply Forall_forall. intros [t recs] (t' & [= -> ->] & Ht')%list_elem_of_fmap.
    simpl. rewrite (records_of_rows_dumpable (fst (schema t')) (snd (schema t'))).
    - by rewrite Hblob.
    - apply table_records_rows; [exact chunk_size_pos|].
      unfold tables_served in Hserved. rewrite Forall_forall in Hserved.
      by destruct (Hserved t' Ht') as (_ & _ & _ & ?). }
  exists (logged (LogInfo "Preprocessing completed successfully") w2).
  split_and!.
  - unfold main, try_except, bind, logger_info. fold start. by rewrite Hex, Hexp.
  - simpl. congruence.
  - intros t Ht. simpl. apply Hfiles. unfold items.
    apply list_elem_of_fmap. by exists t.
  - done.
  - simpl. by rewrite Ho2, Ho1, Hlabels.
Qed.

Lemma fs_reliable_env_plain : fs_reliable env_plain.
Proof. by split. Qed.

Lemma main_writes_all_tables_witness :
  ∃ w', main env_plain world0 = (Ok tt, w')
    ∧ w_conn w' = Closed
    ∧ (∀ t, t ∈ tables →
         w_files w' !! output_file t
         = Some (JsonArray (table_records chunk_size ["c"; "t"] rows_plain)))
    ∧ w_files w' !! marker_file = Some (Text marker_text)
    ∧ w_opened w' = w_opened world0 ++ (output_file <$> tables) ++ [marker_file].
Proof.
  apply (main_writes_all_tables env_plain (λ _, (["c"; "t"], rows_plain)) world0).
  - reflexivity.
  - apply Forall_forall. intros t _. apply table_served_env_plain.
  - intros t _. reflexivity.
  - exact fs_reliable_env_plain.
Defined.
